(** * mind-web-dashboard: the weather time-series pipeline and the polygon centroid

    A shallow embedding of [src/utils/calculateCentroid.ts] and of the
    weather helpers ([parseRawWeatherData], [filterByRange],
    [aggregateByUnit], [debugWeatherDataPipeline]) together with the
    ECMAScript built-ins they call.

    Conventions of the embedding.
    - A JavaScript [number] is an IEEE-754 binary64 value: [spec_float] with
      precision 53 and maximal exponent 1024, every operation rounded to
      nearest-even by the functions of [SpecFloat].
    - [calculateCentroid] is written once over the operations it uses of
      its numbers (the class [Arithmetic]); the program is its instance
      [binary64], and the instance [rationals] is the same function without
      rounding.
    - A [Date] object is its time value: [Some t] with [t] the milliseconds
      since the epoch, or [None] for an Invalid Date (time value NaN).
    - A thrown exception is the [Throw] case of [result]; [try]/[catch] is
      [try_catch].
    - [console.*] calls have no effect on any value; only the evaluation of
      their arguments is kept where that evaluation can throw.
    - An array that the code updates in place is threaded through the call
      and returned next to the result.
    - [new Date(s)] is fixed by the standard on the complete UTC form that
      [toISOString] prints, and that part is computed; what the host makes
      of any other string is the parameter [hostDateParse].
    - The unit ["Day"] is the constructor [Day_]; [Day] is the day number of
      a time value, as in the standard. *)

From Stdlib Require Import String Ascii.
From Stdlib Require Import ZArith QArith Bool Lia List Sorted Permutation.
From Stdlib Require Import Floats.SpecFloat.
From Equations Require Import Equations.
From Equations.Prop Require Import Logic.
Import ListNotations.

Set Implicit Arguments.
Open Scope Z_scope.

(* ===================================================================== *)
(** ** Part I. Definitions                                                 *)
(* ===================================================================== *)

(** *** Exceptions *)

Inductive exn : Type :=
| TypeError
| RangeError
| Error (message : string).

Inductive result (A : Type) : Type :=
| Ok (a : A)
| Throw (e : exn).
Arguments Ok {A} a.
Arguments Throw {A} e.

Definition bind {A B : Type} (m : result A) (k : A -> result B) : result B :=
  match m with
  | Ok a => k a
  | Throw e => Throw e
  end.

Notation "x <- m ;; k" := (bind m (fun x => k))
  (at level 61, m at next level, right associativity).

Definition try_catch {A : Type} (body : result A) (handler : exn -> result A)
  : result A :=
  match body with
  | Ok a => Ok a
  | Throw e => handler e
  end.

Fixpoint mapM {A B : Type} (f : A -> result B) (l : list A) : result (list B) :=
  match l with
  | [] => Ok []
  | a :: l' => b <- f a ;; bs <- mapM f l' ;; Ok (b :: bs)
  end.

Fixpoint foldM {A B : Type} (f : B -> A -> result B) (l : list A) (b : B)
  : result B :=
  match l with
  | [] => Ok b
  | a :: l' => b' <- f b a ;; foldM f l' b'
  end.

(** *** Numbers (binary64) *)

Module Num.

Definition number : Type := spec_float.

Definition prec : Z := 53.
Definition emax : Z := 1024.

Definition add : number -> number -> number := SFadd prec emax.
Definition sub : number -> number -> number := SFsub prec emax.
Definition mul : number -> number -> number := SFmul prec emax.
Definition div : number -> number -> number := SFdiv prec emax.

(** The number denoted by an integer literal. *)
Definition ofZ (z : Z) : number := binary_normalize prec emax z 0 false.

Definition NaN : number := S754_nan.
Definition Infinity : number := S754_infinity false.
Definition NegInfinity : number := S754_infinity true.

(** [isNaN x] for an [x] that already is a number. *)
Definition isNaN (x : number) : bool :=
  match x with
  | S754_nan => true
  | _ => false
  end.

Definition isFinite (x : number) : bool :=
  match x with
  | S754_zero _ | S754_finite _ _ _ => true
  | _ => false
  end.

(** [x === y] on numbers: NaN differs from everything, the two zeros are
    equal. *)
Definition strict_eq (x y : number) : bool := SFeqb x y.

End Num.
Import Num.

(** *** Values found in a decoded JSON array *)

Inductive jsval : Type :=
| JUndefined
| JNull
| JBool (b : bool)
| JNumber (x : number)
| JString (s : string).

(** *** Dates: the ECMAScript time-value algorithms *)

Module ESDate.

Definition Date : Type := option Z.

Definition msPerDay : Z := 86400000.
Definition msPerHour : Z := 3600000.
Definition msPerMinute : Z := 60000.
Definition msPerSecond : Z := 1000.

Definition Day (t : Z) : Z := t / msPerDay.
Definition TimeWithinDay (t : Z) : Z := t mod msPerDay.

Definition DaysInYear (y : Z) : Z :=
  if negb (y mod 4 =? 0) then 365
  else if negb (y mod 100 =? 0) then 366
  else if negb (y mod 400 =? 0) then 365
  else 366.

Definition DayFromYear (y : Z) : Z :=
  365 * (y - 1970) + (y - 1969) / 4 - (y - 1901) / 100 + (y - 1601) / 400.

Definition TimeFromYear (y : Z) : Z := msPerDay * DayFromYear y.

(** The year of day number [d]: the largest [y] with [DayFromYear y <= d]
    (lemma [YearFromDay_spec]).  The mean Gregorian year has 146097/400
    days, which puts the estimate within one year of the answer. *)
Definition YearFromDay (d : Z) : Z :=
  let y := 1970 + (400 * d) / 146097 in
  if d <? DayFromYear y then y - 1
  else if DayFromYear (y + 1) <=? d then y + 1
  else y.

Definition YearFromTime (t : Z) : Z := YearFromDay (Day t).

Definition InLeapYear (t : Z) : Z :=
  if DaysInYear (YearFromTime t) =? 366 then 1 else 0.

Definition DayWithinYear (t : Z) : Z := Day t - DayFromYear (YearFromTime t).

(** Month number (0 = January) of the [dwy]-th day of a year, [leap] being
    0 or 1. *)
Definition MonthFromDayWithinYear (dwy leap : Z) : Z :=
  if dwy <? 31 then 0
  else if dwy <? 59 + leap then 1
  else if dwy <? 90 + leap then 2
  else if dwy <? 120 + leap then 3
  else if dwy <? 151 + leap then 4
  else if dwy <? 181 + leap then 5
  else if dwy <? 212 + leap then 6
  else if dwy <? 243 + leap then 7
  else if dwy <? 273 + leap then 8
  else if dwy <? 304 + leap then 9
  else if dwy <? 334 + leap then 10
  else 11.

(** Day number within the year of the first day of month [m]. *)
Definition MonthStart (m leap : Z) : Z :=
  match m with
  | 0 => 0
  | 1 => 31
  | 2 => 59 + leap
  | 3 => 90 + leap
  | 4 => 120 + leap
  | 5 => 151 + leap
  | 6 => 181 + leap
  | 7 => 212 + leap
  | 8 => 243 + leap
  | 9 => 273 + leap
  | 10 => 304 + leap
  | _ => 334 + leap
  end.

Definition DaysInMonth (m leap : Z) : Z :=
  match m with
  | 1 => 28 + leap
  | 3 | 5 | 8 | 10 => 30
  | _ => 31
  end.

Definition MonthFromTime (t : Z) : Z :=
  MonthFromDayWithinYear (DayWithinYear t) (InLeapYear t).

Definition DateFromTime (t : Z) : Z :=
  DayWithinYear t - MonthStart (MonthFromTime t) (InLeapYear t) + 1.

Definition HourFromTime (t : Z) : Z := (t / msPerHour) mod 24.
Definition MinFromTime (t : Z) : Z := (t / msPerMinute) mod 60.
Definition SecFromTime (t : Z) : Z := (t / msPerSecond) mod 60.
Definition msFromTime (t : Z) : Z := t mod msPerSecond.

Definition MakeTime (hour min sec ms : Z) : Z :=
  hour * msPerHour + min * msPerMinute + sec * msPerSecond + ms.

(** [MakeDay] for a month number already in 0..11. *)
Definition MakeDay (year month date : Z) : Z :=
  let leap := if DaysInYear year =? 366 then 1 else 0 in
  DayFromYear year + MonthStart month leap + date - 1.

Definition MakeDate (day time : Z) : Z := day * msPerDay + time.

Definition TimeClip (t : Z) : Date :=
  if Z.abs t >? 8640000000000000 then None else Some t.

(** **** Decimal fields *)

Definition digitChar (d : Z) : ascii := ascii_of_N (48 + Z.to_N d).

Definition digitVal (c : ascii) : option Z :=
  let n := Z.of_N (N_of_ascii c) in
  if (48 <=? n) && (n <=? 57) then Some (n - 48) else None.

Definition pad2 (n : Z) : string :=
  String (digitChar (n / 10)) (String (digitChar (n mod 10)) EmptyString).

Definition pad3 (n : Z) : string :=
  String (digitChar (n / 100)) (pad2 (n mod 100)).

Definition pad4 (n : Z) : string :=
  String (digitChar (n / 1000)) (pad3 (n mod 1000)).

Definition pad6 (n : Z) : string :=
  String (digitChar (n / 100000))
    (String (digitChar ((n / 10000) mod 10)) (pad4 (n mod 10000))).

(** Years 0..9999 print with four digits, all others with a sign and six. *)
Definition yearString (y : Z) : string :=
  if (0 <=? y) && (y <=? 9999) then pad4 y
  else if y <? 0 then String "-"%char (pad6 (- y))
  else String "+"%char (pad6 y).

(** [Date.prototype.toISOString] on a valid time value. *)
Definition isoStringOfTime (t : Z) : string :=
  (yearString (YearFromTime t) ++
   String "-"%char (pad2 (MonthFromTime t + 1) ++
   String "-"%char (pad2 (DateFromTime t) ++
   String "T"%char (pad2 (HourFromTime t) ++
   String ":"%char (pad2 (MinFromTime t) ++
   String ":"%char (pad2 (SecFromTime t) ++
   String "."%char (pad3 (msFromTime t) ++
   String "Z"%char EmptyString)))))))%string.

(** [d.toISOString()]: a RangeError on an Invalid Date. *)
Definition toISOString (d : Date) : result string :=
  match d with
  | None => Throw RangeError
  | Some t => Ok (isoStringOfTime t)
  end.

Definition num2 (a b : ascii) : option Z :=
  match digitVal a, digitVal b with
  | Some x, Some y => Some (10 * x + y)
  | _, _ => None
  end.

Definition num3 (a b c : ascii) : option Z :=
  match digitVal a, num2 b c with
  | Some x, Some y => Some (100 * x + y)
  | _, _ => None
  end.

Definition num4 (a b c d : ascii) : option Z :=
  match digitVal a, num3 b c d with
  | Some x, Some y => Some (1000 * x + y)
  | _, _ => None
  end.

(** The complete UTC form [YYYY-MM-DDTHH:mm:ss.sssZ] of the Date Time
    String Format with every field in its legal range; [None] for any
    other string. *)
Definition parseUTCDateTime (s : string) : option Z :=
  match list_ascii_of_string s with
  | [y1; y2; y3; y4; c1; m1; m2; c2; d1; d2; cT;
     h1; h2; c3; n1; n2; c4; s1; s2; c5; f1; f2; f3; cZ] =>
      if (c1 =? "-")%char && (c2 =? "-")%char && (cT =? "T")%char &&
         (c3 =? ":")%char && (c4 =? ":")%char && (c5 =? ".")%char &&
         (cZ =? "Z")%char
      then
        match num4 y1 y2 y3 y4, num2 m1 m2, num2 d1 d2,
              num2 h1 h2, num2 n1 n2, num2 s1 s2, num3 f1 f2 f3 with
        | Some y, Some m, Some d, Some h, Some mi, Some sec, Some ms =>
            let leap := if DaysInYear y =? 366 then 1 else 0 in
            if (1 <=? m) && (m <=? 12) && (1 <=? d) &&
               (d <=? DaysInMonth (m - 1) leap) &&
               (h <=? 23) && (mi <=? 59) && (sec <=? 59)
            then Some (MakeDate (MakeDay y (m - 1) d) (MakeTime h mi sec ms))
            else None
        | _, _, _, _, _, _, _ => None
        end
      else None
  | _ => None
  end.

Section Host.

(** What the host makes of a string outside the form above: the other
    forms of the format (date only, local time, offsets, expanded years)
    and the formats the standard leaves to the implementation. *)
Variable hostDateParse : string -> Date.

(** [new Date(s)] for a string [s]. *)
Definition newDate (s : string) : Date :=
  match parseUTCDateTime s with
  | Some t => TimeClip t
  | None => hostDateParse s
  end.

End Host.

(** [s.slice(0, n)] for a string. *)
Definition slice0 (n : nat) (s : string) : string := substring 0 n s.

End ESDate.
Import ESDate.

(** *** Arrays *)

(** [a.splice(start)] for [0 <= start]: the array keeps its first [start]
    elements; the removed tail is the value of the call. *)
Definition splice {A : Type} (a : list A) (start : nat) : list A * list A :=
  (firstn start a, skipn start a).

Fixpoint mapi_from {A B : Type} (f : A -> nat -> B) (i : nat) (l : list A)
  : list B :=
  match l with
  | [] => []
  | a :: l' => f a i :: mapi_from f (S i) l'
  end.

(** [a.map((x, i) => f x i)]. *)
Definition mapi {A B : Type} (f : A -> nat -> B) (l : list A) : list B :=
  mapi_from f 0%nat l.

(** [a.filter(p => p !== null)] on an array of objects and nulls. *)
Fixpoint filterNotNull {A : Type} (l : list (option A)) : list A :=
  match l with
  | [] => []
  | Some a :: l' => a :: filterNotNull l'
  | None :: l' => filterNotNull l'
  end.

(** [a.sort(cmp)].  [cmp] answers [None] for NaN, which the standard reads
    as 0.  When [cmp] orders the elements of the array consistently the
    standard fixes the result, that of a stable sort; when it does not
    (here: an Invalid Date among the times compared) the order is left to
    the engine.  [sort] is the stable insertion sort: the result in the
    first case, and one of the orders an engine may give in the second. *)
Section Sort.
Context {A : Type}.
Variable cmp : A -> A -> option Z.

Definition sortCompare (x y : A) : Z :=
  match cmp x y with
  | Some v => v
  | None => 0
  end.

Fixpoint insertSorted (x : A) (l : list A) : list A :=
  match l with
  | [] => [x]
  | y :: l' =>
      if sortCompare x y <=? 0 then x :: y :: l'
      else y :: insertSorted x l'
  end.

Fixpoint sort (l : list A) : list A :=
  match l with
  | [] => []
  | x :: l' => insertSorted x (sort l')
  end.
End Sort.

(** *** calculateCentroid.ts *)

(** What the function uses of the type [number]: the four operations, the
    number of an integer literal or of a length, and [===]. *)
Class Arithmetic (N : Type) : Type :=
  { plus : N -> N -> N;
    minus : N -> N -> N;
    mult : N -> N -> N;
    quot : N -> N -> N;
    literal : Z -> N;
    equal : N -> N -> bool }.

Declare Scope arith_scope.
Delimit Scope arith_scope with arith.
Infix "+" := plus : arith_scope.
Infix "-" := minus : arith_scope.
Infix "*" := mult : arith_scope.
Infix "/" := quot : arith_scope.
Infix "===" := equal (at level 70, no associativity) : arith_scope.

(** JavaScript computes with binary64 numbers, every operation rounded. *)
#[export] Instance binary64 : Arithmetic number :=
  {| plus := add; minus := sub; mult := mul; quot := div;
     literal := ofZ; equal := strict_eq |}.


(** [{ lat: number; lng: number }], over the arithmetic of its numbers. *)
Record LatLng (N : Type) : Type := { lat : N; lng : N }.

Definition LatLngLiteral : Type := LatLng number.

Definition lengthNumber {A : Type} (l : list A) : number :=
  ofZ (Z.of_nat (length l)).

(** The three accumulators of the loop. *)
Record Shoelace (N : Type) : Type := { twiceArea : N; Cx : N; Cy : N }.

Definition emptyCentroidMessage : string :=
  "Cannot calculate centroid of empty coordinate array.".

Section Centroid.

Context {N : Type} {arith : Arithmetic N}.

(** [coords.reduce((acc, p) => ({lat: acc.lat + p.lat, lng: acc.lng + p.lng}),
    {lat: 0, lng: 0})]. *)
Definition sumCoords (coords : list (LatLng N)) : LatLng N :=
  fold_left
    (fun acc p => {| lat := (lat acc + lat p)%arith;
                     lng := (lng acc + lng p)%arith |})
    coords {| lat := literal 0; lng := literal 0 |}.

(** [{lat: sum.lat / n, lng: sum.lng / n}]. *)
Definition averageCoords (coords : list (LatLng N)) : LatLng N :=
  let sum := sumCoords coords in
  let n := literal (Z.of_nat (length coords)) in
  {| lat := (lat sum / n)%arith; lng := (lng sum / n)%arith |}.

Definition shoelaceZero : Shoelace N :=
  {| twiceArea := literal 0; Cx := literal 0; Cy := literal 0 |}.

(** One edge from [(x0, y0)] to [(x1, y1)]. *)
Definition shoelaceEdge (acc : Shoelace N) (p0 p1 : LatLng N) : Shoelace N :=
  let x0 := lat p0 in let y0 := lng p0 in
  let x1 := lat p1 in let y1 := lng p1 in
  let cross := (x0 * y1 - x1 * y0)%arith in
  {| twiceArea := (twiceArea acc + cross)%arith;
     Cx := (Cx acc + (x0 + x1) * cross)%arith;
     Cy := (Cy acc + (y0 + y1) * cross)%arith |}.

(** [coords[i]] read by a destructuring pattern: a TypeError outside the
    array. *)
Definition destructureAt (coords : list (LatLng N)) (i : nat)
  : result (LatLng N) :=
  match nth_error coords i with
  | Some p => Ok p
  | None => Throw TypeError
  end.

(** The body of [for (let i = 0; i < n; i++)]. *)
Definition shoelaceStep (coords : list (LatLng N)) (acc : Shoelace N) (i : nat)
  : result (Shoelace N) :=
  let n := length coords in
  p0 <- destructureAt coords i ;;
  p1 <- destructureAt coords ((i + 1) mod n)%nat ;;
  Ok (shoelaceEdge acc p0 p1).

Definition calculateCentroid (coords : list (LatLng N))
  : result (LatLng N) :=
  let n := length coords in
  if (n =? 0)%nat then Throw (Error emptyCentroidMessage)
  else if (n <? 3)%nat then Ok (averageCoords coords)
  else
    acc <- foldM (shoelaceStep coords) (seq 0 n) shoelaceZero ;;
    let area := (twiceArea acc / literal 2)%arith in
    if (area === literal 0)%arith then Ok (averageCoords coords)
    else
      let factor := (literal 1 / (literal 6 * area))%arith in
      Ok {| lat := (Cx acc * factor)%arith; lng := (Cy acc * factor)%arith |}.

End Centroid.

(** *** weather helpers: data *)

Record TimePoint : Type := { time : Date; temperature : number }.

Inductive TimeUnit : Type :=
| Hour
| Day_
| OtherUnit (name : string).

Record HourlyUnits : Type :=
  { units_time : string; units_temperature_2m : string }.

(** [hourly]: each array may be missing in the decoded response. *)
Record Hourly : Type :=
  { hourly_time : option (list string);
    hourly_temperature_2m : option (list jsval) }.

Record WeatherData : Type :=
  { latitude : number;
    longitude : number;
    generationtime_ms : number;
    utc_offset_seconds : number;
    timezone : string;
    timezone_abbreviation : string;
    elevation : number;
    hourly_units : HourlyUnits;
    hourly : option Hourly }.

(** The payload after its two arrays were replaced, every other field as it
    was. *)
Definition withHourlyArrays (w : WeatherData) (times : list string)
  (temps : list jsval) : WeatherData :=
  {| latitude := latitude w;
     longitude := longitude w;
     generationtime_ms := generationtime_ms w;
     utc_offset_seconds := utc_offset_seconds w;
     timezone := timezone w;
     timezone_abbreviation := timezone_abbreviation w;
     elevation := elevation w;
     hourly_units := hourly_units w;
     hourly := Some {| hourly_time := Some times;
                       hourly_temperature_2m := Some temps |} |}.

(** *** filterByRange *)

(** The filter callback. *)
Definition inRange (start end_ : Z) (pt : TimePoint) : bool :=
  match time pt with
  | None => false
  | Some t => (t >=? start) && (t <=? end_)
  end.

(** 1 exactly for a two-element range of valid dates given in the wrong
    order: the one case in which the function calls itself. *)
Definition inversions (range : list Date) : nat :=
  match range with
  | [Some start; Some end_] => if start >? end_ then 1%nat else 0%nat
  | _ => 0%nat
  end.

Equations? filterByRange (series : list TimePoint) (range : list Date)
  : result (list TimePoint) by wf (inversions range) lt :=
filterByRange series range with mapM toISOString range := {
  | Throw e := Throw e
  | Ok _ with series := {
    | [] := Ok []
    | _ :: _ with range := {
      | [Some start; Some end_] with inspect (start >? end_) := {
        | exist _ true _ := filterByRange series [Some end_; Some start]
        | exist _ false _ :=
            let filtered := filter (inRange start end_) series in
            _ <- toISOString (Some start) ;;
            _ <- toISOString (Some end_) ;;
            Ok filtered }
      | _ := Ok series } } }.
Proof.
  rewrite e. destruct (end_ >? start) eqn:E; lia.
Qed.

(** *** aggregateByUnit: the bucket map *)

Record Bucket : Type := { sum : number; count : number; dates : list Date }.

(** A [Map<string, Bucket>]: its entries in insertion order, keys distinct. *)
Definition BucketMap : Type := list (string * Bucket).

Fixpoint map_has (m : BucketMap) (key : string) : bool :=
  match m with
  | [] => false
  | (k, _) :: m' => if (k =? key)%string then true else map_has m' key
  end.

Fixpoint map_get (m : BucketMap) (key : string) : option Bucket :=
  match m with
  | [] => None
  | (k, b) :: m' => if (k =? key)%string then Some b else map_get m' key
  end.

(** [m.set(key, b)]: an existing key keeps its place, a new one goes last. *)
Fixpoint map_set (m : BucketMap) (key : string) (b : Bucket) : BucketMap :=
  match m with
  | [] => [(key, b)]
  | (k, b0) :: m' =>
      if (k =? key)%string then (k, b) :: m' else (k, b0) :: map_set m' key b
  end.

Definition emptyBucket : Bucket :=
  {| sum := ofZ 0; count := ofZ 0; dates := [] |}.

(** The three updates of the bucket object, which stays in the map. *)
Definition addToBucket (b : Bucket) (t : Date) (temp : number) : Bucket :=
  {| sum := add (sum b) temp;
     count := add (count b) (ofZ 1);
     dates := dates b ++ [t] |}.

Definition midnightSuffix : string := "T00:00:00.000Z".

(** The callback of [series.forEach] for a given unit. *)
Definition bucketStep (unit : TimeUnit) (buckets : BucketMap) (pt : TimePoint)
  : result BucketMap :=
  match time pt with
  | None => Ok buckets
  | Some _ =>
      if isNaN (temperature pt) then Ok buckets
      else
        match unit with
        | Day_ =>
            iso <- toISOString (time pt) ;;
            let key := slice0 10 iso in
            let buckets1 :=
              if negb (map_has buckets key)
              then map_set buckets key emptyBucket else buckets in
            match map_get buckets1 key with
            | None => Throw TypeError
            | Some bucket =>
                Ok (map_set buckets1 key
                      (addToBucket bucket (time pt) (temperature pt)))
            end
        | _ => Ok buckets
        end
  end.

(** [a.time.getTime() - b.time.getTime()], NaN when either date is
    invalid. *)
Definition compareByTime (a b : TimePoint) : option Z :=
  match time a, time b with
  | Some x, Some y => Some (x - y)
  | _, _ => None
  end.

Section Weather.

Variable hostDateParse : string -> Date.

(** *** parseRawWeatherData *)

(** The callback of [times.map]. *)
Definition parsePoint (temps : list jsval) (iso : string) (i : nat)
  : option TimePoint :=
  let date := newDate hostDateParse iso in
  match date with
  | None => None
  | Some _ =>
      match nth_error temps i with
      | Some (JNumber temperature) =>
          if isNaN temperature then None
          else Some {| time := date; temperature := temperature |}
      | _ => None
      end
  end.

(** The returned array, and the payload as the call leaves it. *)
Definition parseRawWeatherData (raw : option WeatherData)
  : list TimePoint * option WeatherData :=
  match raw with
  | None => ([], raw)
  | Some w =>
      match hourly w with
      | None => ([], raw)
      | Some h =>
          match hourly_time h, hourly_temperature_2m h with
          | Some times, Some temps =>
              if (length times =? 0)%nat || (length temps =? 0)%nat
              then ([], raw)
              else
                let '(times1, temps1) :=
                  if negb (length times =? length temps)%nat then
                    let minLength := Nat.min (length times) (length temps) in
                    (fst (splice times minLength),
                     fst (splice temps minLength))
                  else (times, temps) in
                let result := filterNotNull (mapi (parsePoint temps1) times1) in
                (result, Some (withHourlyArrays w times1 temps1))
          | _, _ => ([], raw)
          end
      end
  end.

(** *** aggregateByUnit *)

(** The callback of [Array.from(buckets.entries()).map]. *)
Definition bucketPoint (entry : string * Bucket) : option TimePoint :=
  let '(key, b) := entry in
  let avgTemp := div (sum b) (count b) in
  if isNaN avgTemp then None
  else Some {| time := newDate hostDateParse (key ++ midnightSuffix)%string;
               temperature := avgTemp |}.

Definition aggregateByUnit (series : list TimePoint) (unit : TimeUnit)
  : result (list TimePoint) :=
  match series with
  | [] => Ok []
  | _ :: _ =>
      match unit with
      | Hour => Ok series
      | _ =>
          buckets <- foldM (bucketStep unit) series [] ;;
          Ok (sort compareByTime (filterNotNull (map bucketPoint buckets)))
      end
  end.

(** *** debugWeatherDataPipeline *)

(** [range[i].toISOString()]. *)
Definition isoStringAt (range : list Date) (i : nat) : result string :=
  match nth_error range i with
  | None => Throw TypeError
  | Some d => toISOString d
  end.

(** The statements inside [try]. *)
Definition pipelineBody (parsed : list TimePoint) (range : option (list Date))
  (unit : TimeUnit) : result (list TimePoint) :=
  if (length parsed =? 0)%nat then Ok []
  else
    filtered <-
      match range with
      | Some r => filterByRange parsed r
      | None => Ok parsed
      end ;;
    if (length filtered =? 0)%nat then Ok []
    else
      aggregated <- aggregateByUnit filtered unit ;;
      if (length aggregated =? 0)%nat then Ok []
      else
        _ <- match range with
             | Some r => _ <- isoStringAt r 0 ;; isoStringAt r 1
             | None => Ok "No range filter"%string
             end ;;
        Ok aggregated.

(** [unit] is [None] when the argument is left out. *)
Definition debugWeatherDataPipeline (raw : option WeatherData)
  (range : option (list Date)) (unit : option TimeUnit)
  : result (list TimePoint) * option WeatherData :=
  let unit1 := match unit with Some u => u | None => Hour end in
  let '(parsed, raw1) := parseRawWeatherData raw in
  (try_catch (pipelineBody parsed range unit1) (fun _ => Ok []), raw1).

End Weather.

(* ===================================================================== *)
(** ** Part II. Properties                                                 *)
(* ===================================================================== *)

(** *** Generic facts about the monad and the array helpers *)

Lemma bind_Ok_inv {A B : Type} (m : result A) (k : A -> result B) (b : B) :
  bind m k = Ok b -> exists a, m = Ok a /\ k a = Ok b.
Proof.
  destruct m as [a | e]; simpl; intros H; [eauto | discriminate].
Qed.

Lemma foldM_app {A B : Type} (f : B -> A -> result B) (l1 l2 : list A) (b : B) :
  foldM f (l1 ++ l2) b = (b1 <- foldM f l1 b ;; foldM f l2 b1).
Proof.
  revert b; induction l1 as [| a l1 IH]; intros b; simpl; [reflexivity |].
  destruct (f b a); simpl; auto.
Qed.

Lemma filterNotNull_app {A : Type} (l1 l2 : list (option A)) :
  filterNotNull (l1 ++ l2) = filterNotNull l1 ++ filterNotNull l2.
Proof.
  induction l1 as [| [a |] l1 IH]; simpl; [reflexivity | f_equal; exact IH | exact IH].
Qed.

(** *** calculateCentroid *)

Section CentroidLoop.

Context {N : Type} {arith : Arithmetic N}.

Lemma destructureAt_nth (coords : list (LatLng N)) (i : nat) (d : LatLng N) :
  (i < length coords)%nat -> destructureAt coords i = Ok (nth i coords d).
Proof.
  intros Hi. unfold destructureAt.
  rewrite (nth_error_nth' coords d Hi). reflexivity.
Qed.

(** Inside the array the loop body reads vertex [i] and its successor with
    the index wrapped around, and does not throw. *)
Lemma shoelaceStep_nth (coords : list (LatLng N)) (acc : Shoelace N) (i : nat)
  (d : LatLng N) :
  (i < length coords)%nat ->
  shoelaceStep coords acc i
  = Ok (shoelaceEdge acc (nth i coords d)
          (nth ((i + 1) mod length coords) coords d)).
Proof.
  intros Hi. unfold shoelaceStep.
  rewrite (@destructureAt_nth coords i d Hi). cbn [bind].
  rewrite (@destructureAt_nth coords ((i + 1) mod length coords) d);
    [reflexivity |].
  apply Nat.mod_upper_bound. lia.
Qed.

Lemma shoelace_loop (coords : list (LatLng N)) (d : LatLng N) (k : nat) :
  (k <= length coords)%nat ->
  foldM (shoelaceStep coords) (seq 0 k) shoelaceZero
  = Ok (fold_left
          (fun acc i => shoelaceEdge acc (nth i coords d)
                          (nth ((i + 1) mod length coords) coords d))
          (seq 0 k) shoelaceZero).
Proof.
  induction k as [| k IH]; intros Hk; [reflexivity |].
  rewrite seq_S, foldM_app, fold_left_app, IH by lia.
  cbn [bind foldM fold_left Nat.add].
  rewrite (@shoelaceStep_nth coords _ k d) by lia. reflexivity.
Qed.

Lemma calculateCentroid_nonempty (coords : list (LatLng N)) :
  coords <> [] -> exists c, calculateCentroid coords = Ok c.
Proof.
  intros Hne. destruct coords as [| p coords]; [elim Hne; reflexivity |].
  unfold calculateCentroid.
  rewrite (@shoelace_loop (p :: coords) p (length (p :: coords))) by lia.
  cbn [length Nat.eqb bind].
  destruct (S (length coords) <? 3)%nat; [eauto |].
  destruct (equal _ _); eauto.
Qed.

End CentroidLoop.

(** **** The formulas of the specification

    What the specification says the function returns, written from its
    words over the rationals and apart from the code: sums over the vertex
    indices, the mean, the signed area and the centroid
    [(Cx / (6 * area), Cy / (6 * area))]. *)

Section ExactCentroid.

Local Open Scope Q_scope.





















End ExactCentroid.

Definition vertex (x y : Z) : LatLngLiteral := {| lat := ofZ x; lng := ofZ y |}.

Definition square4 : list LatLngLiteral :=
  [vertex 0 0; vertex 4 0; vertex 4 4; vertex 0 4].


Definition triangle17 : list LatLngLiteral :=
  [vertex 0 0; vertex 1 0; vertex 0 7].


(** In binary64 the product with the rounded reciprocal is not always the
    rounded quotient: on the triangle (0,0),(1,0),(0,7) the signed area is
    3.5 and [Cy] is 49; the function returns [49 * (1 / 21)], one unit in
    the last place below [49 / 21]. *)
Remark calculateCentroid_reciprocal_rounding :
  calculateCentroid triangle17
  = Ok {| lat := mul (ofZ 7) (div (ofZ 1) (ofZ 21));
          lng := mul (ofZ 49) (div (ofZ 1) (ofZ 21)) |} /\
  mul (ofZ 49) (div (ofZ 1) (ofZ 21)) <> div (ofZ 49) (ofZ 21).
Proof.
  split; [vm_compute; reflexivity |].
  vm_compute. intros H. discriminate H.
Qed.

(** *** filterByRange *)

Definition validDate (d : Date) : Prop := d <> None.

(** The entry log prints every bound with [toISOString]. *)
Lemma mapM_toISOString_valid (range : list Date) :
  Forall validDate range -> exists a, mapM toISOString range = Ok a.
Proof.
  induction 1 as [| d range Hd _ [a IH]]; simpl; [eauto |].
  destruct d as [t |]; [| elim Hd; reflexivity].
  simpl. rewrite IH. simpl. eauto.
Qed.

Lemma mapM_toISOString_invalid (range : list Date) :
  In None range -> mapM toISOString range = Throw RangeError.
Proof.
  induction range as [| d range IH]; intros Hin; [destruct Hin |].
  destruct d as [t |]; simpl; [| reflexivity].
  destruct Hin as [Heq | Hin]; [discriminate |].
  rewrite (IH Hin). reflexivity.
Qed.

(** The function, one level unfolded, in the order of the source. *)
Lemma filterByRange_body (series : list TimePoint) (range : list Date) :
  filterByRange series range =
  (_ <- mapM toISOString range ;;
   match series with
   | [] => Ok []
   | _ :: _ =>
       match range with
       | [start; end_] =>
           match start, end_ with
           | Some s, Some e =>
               if s >? e then filterByRange series [Some e; Some s]
               else Ok (filter (inRange s e) series)
           | _, _ => Ok series
           end
       | _ => Ok series
       end
   end).
Proof.
  simp filterByRange.
  destruct (mapM toISOString range) as [a | e]; simp filterByRange; [| reflexivity].
  simpl bind.
  destruct series as [| pt series]; simp filterByRange; [reflexivity |].
  destruct range as [| [s |] [| [e |] [| d range]]]; simp filterByRange;
    try reflexivity.
  destruct (inspect (s >? e)) as [[|] E]; simp filterByRange; rewrite E;
    reflexivity.
Qed.

(** A two-element range of valid dates in order: the inclusive filter. *)
Lemma filterByRange_ordered (series : list TimePoint) (s e : Z) :
  s <= e ->
  filterByRange series [Some s; Some e] = Ok (filter (inRange s e) series).
Proof.
  intros Hle. rewrite filterByRange_body. simpl.
  destruct series as [| pt series]; [reflexivity |].
  destruct (Z.gtb_spec s e); [lia | reflexivity].
Qed.

(** The same range given backwards: one recursive call on the swapped
    bounds. *)
Lemma filterByRange_inverted (series : list TimePoint) (s e : Z) :
  s < e ->
  filterByRange series [Some e; Some s] = Ok (filter (inRange s e) series).
Proof.
  intros Hlt. rewrite filterByRange_body. simpl.
  destruct series as [| pt series]; [reflexivity |].
  destruct (Z.gtb_spec e s); [| lia].
  apply filterByRange_ordered. lia.
Qed.

(** A range that does not have exactly two elements, all of them valid
    dates: the input comes back. *)
Lemma filterByRange_malformed (series : list TimePoint) (range : list Date) :
  Forall validDate range -> length range <> 2%nat ->
  filterByRange series range = Ok series.
Proof.
  intros Hvalid Hlen. rewrite filterByRange_body.
  destruct (mapM_toISOString_valid Hvalid) as [a ->]. simpl.
  destruct series as [| pt series]; [reflexivity |].
  destruct range as [| d0 [| d1 [| d2 range]]]; try reflexivity.
  elim Hlen; reflexivity.
Qed.

(** An invalid date anywhere in the range: the entry log throws before any
    guard is reached. *)
Lemma filterByRange_invalid (series : list TimePoint) (range : list Date) :
  In None range -> filterByRange series range = Throw RangeError.
Proof.
  intros Hin. rewrite filterByRange_body.
  rewrite (mapM_toISOString_invalid _ Hin). reflexivity.
Qed.

(** Whatever the range, a call that returns gives the input or a filtering
    of it. *)
Lemma filterByRange_Ok_cases (series : list TimePoint) (range : list Date)
  (out : list TimePoint) :
  filterByRange series range = Ok out ->
  out = series \/ exists s e, out = filter (inRange s e) series.
Proof.
  rewrite filterByRange_body.
  destruct (mapM toISOString range) as [a | ex]; simpl; [| discriminate].
  destruct series as [| pt series]; [intros H; inversion H; auto |].
  destruct range as [| [s |] [| [e |] [| d range]]];
    try (intros H; inversion H; auto; fail).
  destruct (Z.gtb_spec s e) as [Hgt | Hle].
  - rewrite filterByRange_ordered by lia.
    intros H; injection H as <-. right. exists e, s. reflexivity.
  - intros H; injection H as <-. right. exists s, e. reflexivity.
Qed.

(** Every call with valid dates returns. *)
Lemma filterByRange_total (series : list TimePoint) (range : list Date) :
  Forall validDate range -> exists out, filterByRange series range = Ok out.
Proof.
  intros Hvalid.
  destruct (Nat.eq_dec (length range) 2) as [Hlen | Hlen].
  - destruct range as [| [s |] [| [e |] [| d range]]]; try discriminate.
    + destruct (Z.le_gt_cases s e) as [Hle | Hgt].
      * rewrite filterByRange_ordered by exact Hle. eauto.
      * rewrite filterByRange_inverted by lia. eauto.
    + inversion Hvalid as [| ? ? _ Hrest]; inversion Hrest as [| ? ? He _].
      elim He; reflexivity.
    + inversion Hvalid as [| ? ? Hs _]. elim Hs; reflexivity.
    + inversion Hvalid as [| ? ? Hs _]. elim Hs; reflexivity.
  - rewrite filterByRange_malformed by assumption. eauto.
Qed.

Definition sampleAt (t : Z) (temp : Z) : TimePoint :=
  {| time := Some t; temperature := ofZ temp |}.

(** C5, at the failing input.  With an Invalid Date as a bound the call
    throws a RangeError, whatever the series and the other bound: the debug
    log at the entry evaluates [d.toISOString()] on every bound before the
    guard on the bounds is reached.  In particular it does so for the series
    of one sample at 2025-07-09T00:00Z with the range [Invalid Date, epoch]. *)
Theorem filterByRange_invalid_bound_throws :
  (forall series other,
      filterByRange series [None; other] = Throw RangeError /\
      filterByRange series [other; None] = Throw RangeError) /\
  filterByRange [sampleAt 1752019200000 10] [None; Some 0] = Throw RangeError.
Proof.
  split.
  - intros series other. split; apply filterByRange_invalid; simpl; auto.
  - apply filterByRange_invalid. simpl; auto.
Qed.

(** C8.  For valid instants [s < e] the inverted range [e, s] gives what the
    range [s, e] gives, and that is the inclusive filter on [s, e]. *)
Theorem filterByRange_swap (series : list TimePoint) (s e : Z) :
  s < e ->
  filterByRange series [Some e; Some s] = filterByRange series [Some s; Some e]
  /\ filterByRange series [Some s; Some e] = Ok (filter (inRange s e) series).
Proof.
  intros Hlt.
  rewrite filterByRange_inverted by exact Hlt.
  rewrite filterByRange_ordered by lia. auto.
Qed.

Lemma filterByRange_swap_witness :
  filterByRange [sampleAt 1 1; sampleAt 5 2; sampleAt 10 3] [Some 7; Some 3]
  = filterByRange [sampleAt 1 1; sampleAt 5 2; sampleAt 10 3] [Some 3; Some 7]
  /\ filterByRange [sampleAt 1 1; sampleAt 5 2; sampleAt 10 3] [Some 3; Some 7]
     = Ok (filter (inRange 3 7) [sampleAt 1 1; sampleAt 5 2; sampleAt 10 3]).
Proof.
  apply (@filterByRange_swap [sampleAt 1 1; sampleAt 5 2; sampleAt 10 3] 3 7).
  lia.
Defined.

(** [out] is [series] with some elements left out: same elements, same
    order, nothing added or repeated. *)
Inductive Subsequence {A : Type} : list A -> list A -> Prop :=
| Subsequence_nil : Subsequence [] []
| Subsequence_skip (x : A) (out l : list A) :
    Subsequence out l -> Subsequence out (x :: l)
| Subsequence_keep (x : A) (out l : list A) :
    Subsequence out l -> Subsequence (x :: out) (x :: l).

Lemma Subsequence_refl {A : Type} (l : list A) : Subsequence l l.
Proof.
  induction l; constructor; assumption.
Qed.

Lemma Subsequence_filter {A : Type} (p : A -> bool) (l : list A) :
  Subsequence (filter p l) l.
Proof.
  induction l as [| x l IH]; simpl; [constructor |].
  destruct (p x); constructor; exact IH.
Qed.

Lemma Subsequence_In {A : Type} (out l : list A) :
  Subsequence out l -> forall x, In x out -> In x l.
Proof.
  induction 1 as [| y out l _ IH | y out l _ IH]; intros x Hin; simpl in *;
    [assumption | auto | destruct Hin; auto].
Qed.

(** C10.  Whenever [filterByRange] returns, its output is a subsequence of
    the input series (hence every output sample is an input sample,
    unmodified and in the original relative order); and it does return for
    every range whose elements are valid dates. *)
Theorem filterByRange_subsequence (series : list TimePoint) (range : list Date) :
  (forall out, filterByRange series range = Ok out ->
               Subsequence out series /\ (forall pt, In pt out -> In pt series)) /\
  (Forall validDate range -> exists out, filterByRange series range = Ok out).
Proof.
  split.
  - intros out H.
    assert (Hsub : Subsequence out series).
    { destruct (filterByRange_Ok_cases _ _ H) as [-> | [s [e ->]]].
      - apply Subsequence_refl.
      - apply Subsequence_filter. }
    split; [exact Hsub | apply Subsequence_In; exact Hsub].
  - apply filterByRange_total.
Qed.

(** *** The date built-ins *)

Lemma DayFromYear_succ (y : Z) :
  DayFromYear (y + 1) = DayFromYear y + DaysInYear y.
Proof.
  unfold DayFromYear, DaysInYear.
  destruct (Z.eqb_spec (y mod 4) 0); destruct (Z.eqb_spec (y mod 100) 0);
    destruct (Z.eqb_spec (y mod 400) 0); cbn [negb];
    Z.div_mod_to_equations; lia.
Qed.

Lemma DayFromYear_mono (y1 y2 : Z) :
  y1 <= y2 -> DayFromYear y1 <= DayFromYear y2.
Proof.
  intros H. unfold DayFromYear. Z.div_mod_to_equations. lia.
Qed.

(** [YearFromDay d] is the year that contains day [d]. *)
Lemma YearFromDay_spec (d : Z) :
  DayFromYear (YearFromDay d) <= d < DayFromYear (YearFromDay d + 1).
Proof.
  unfold YearFromDay.
  set (y := 1970 + 400 * d / 146097).
  destruct (Z.ltb_spec d (DayFromYear y)) as [H1 | H1].
  - replace (y - 1 + 1) with y by lia. split; [| exact H1].
    subst y. unfold DayFromYear in *. Z.div_mod_to_equations. lia.
  - destruct (Z.leb_spec (DayFromYear (y + 1)) d) as [H2 | H2].
    + split; [exact H2 |].
      subst y. unfold DayFromYear in *. Z.div_mod_to_equations. lia.
    + split; assumption.
Qed.

(** It is the largest year that starts on or before [d], as the standard
    defines [YearFromTime]. *)
Lemma YearFromDay_largest (d y : Z) :
  DayFromYear y <= d -> y <= YearFromDay d.
Proof.
  intros H. destruct (Z.le_gt_cases y (YearFromDay d)) as [Hle | Hgt]; [exact Hle |].
  pose proof (YearFromDay_spec d) as [_ Hup].
  pose proof (@DayFromYear_mono (YearFromDay d + 1) y). lia.
Qed.

Lemma InLeapYear_cases (t : Z) :
  (InLeapYear t = 0 /\ DaysInYear (YearFromTime t) = 365) \/
  (InLeapYear t = 1 /\ DaysInYear (YearFromTime t) = 366).
Proof.
  unfold InLeapYear.
  destruct (Z.eqb_spec (DaysInYear (YearFromTime t)) 366) as [E | E]; [auto |].
  left. split; [reflexivity |].
  revert E. unfold DaysInYear.
  repeat match goal with |- context [if negb ?c then _ else _] => destruct c; cbn [negb] end;
    intros E; congruence.
Qed.

Lemma DayWithinYear_range (t : Z) :
  0 <= DayWithinYear t < 365 + InLeapYear t.
Proof.
  unfold DayWithinYear, YearFromTime.
  pose proof (YearFromDay_spec (Day t)) as [Hlo Hhi].
  rewrite DayFromYear_succ in Hhi.
  destruct (InLeapYear_cases t) as [[-> E] | [-> E]];
    unfold YearFromTime in E; lia.
Qed.

(** Month and day of the month are legal and give the day back. *)
Lemma month_and_date (dwy leap : Z) :
  0 <= leap <= 1 -> 0 <= dwy < 365 + leap ->
  let m := MonthFromDayWithinYear dwy leap in
  0 <= m <= 11 /\
  1 <= dwy - MonthStart m leap + 1 <= DaysInMonth m leap.
Proof.
  intros Hleap Hdwy. unfold MonthFromDayWithinYear.
  repeat match goal with
         | |- context [?a <? ?b] => destruct (Z.ltb_spec a b)
         end; cbn [MonthStart DaysInMonth]; lia.
Qed.

Lemma digitVal_digitChar (n : Z) :
  0 <= n <= 9 -> digitVal (digitChar n) = Some n.
Proof.
  intros H. rewrite <- (Z2Nat.id n) by lia.
  assert (Hk : (Z.to_nat n < 10)%nat) by lia.
  revert Hk. generalize (Z.to_nat n) as k. intros k Hk.
  do 10 (destruct k as [| k]; [reflexivity |]). lia.
Qed.

Lemma num2_digits (n : Z) :
  0 <= n < 100 -> num2 (digitChar (n / 10)) (digitChar (n mod 10)) = Some n.
Proof.
  intros H. unfold num2.
  rewrite !digitVal_digitChar by (Z.div_mod_to_equations; lia).
  f_equal. Z.div_mod_to_equations. lia.
Qed.

Lemma num4_digits (n : Z) :
  0 <= n <= 9999 ->
  num4 (digitChar (n / 1000)) (digitChar (n mod 1000 / 100))
       (digitChar (n mod 1000 mod 100 / 10))
       (digitChar (n mod 1000 mod 100 mod 10)) = Some n.
Proof.
  intros H. unfold num4, num3.
  rewrite num2_digits by (Z.div_mod_to_equations; lia).
  rewrite !digitVal_digitChar by (Z.div_mod_to_equations; lia).
  f_equal. Z.div_mod_to_equations. lia.
Qed.

(** A time value whose year prints with four digits. *)
Definition inFourDigitYears (t : Z) : Prop := 0 <= YearFromTime t <= 9999.

(** The first ten characters of the ISO string. *)
Definition dayKey (t : Z) : string := slice0 10 (isoStringOfTime t).

Lemma dayKey_chars (t : Z) :
  inFourDigitYears t ->
  dayKey t =
  (pad4 (YearFromTime t) ++ String "-"%char (pad2 (MonthFromTime t + 1) ++
   String "-"%char (pad2 (DateFromTime t))))%string.
Proof.
  intros [Hlo Hhi]. unfold dayKey, isoStringOfTime, yearString.
  apply Z.leb_le in Hlo, Hhi. rewrite Hlo, Hhi. reflexivity.
Qed.

(** The day key depends on the day number only. *)
Lemma dayKey_Day (t1 t2 : Z) :
  inFourDigitYears t1 -> Day t1 = Day t2 -> dayKey t1 = dayKey t2.
Proof.
  intros H1 E.
  assert (H2 : inFourDigitYears t2).
  { unfold inFourDigitYears, YearFromTime in *. rewrite <- E. exact H1. }
  rewrite !dayKey_chars by assumption.
  unfold MonthFromTime, DateFromTime, MonthFromTime, InLeapYear, DayWithinYear,
    YearFromTime. rewrite E. reflexivity.
Qed.

Lemma parse_day_key (y m d : Z) :
  0 <= y <= 9999 -> 1 <= m <= 12 ->
  1 <= d <= DaysInMonth (m - 1) (if DaysInYear y =? 366 then 1 else 0) ->
  parseUTCDateTime
    ((pad4 y ++ String "-"%char (pad2 m ++ String "-"%char (pad2 d)))
       ++ midnightSuffix)
  = Some (MakeDay y (m - 1) d * msPerDay).
Proof.
  intros Hy Hm Hd.
  assert (Hd' : 1 <= d <= 31).
  { destruct Hd as [Hd1 Hd2]. split; [exact Hd1 |].
    eapply Z.le_trans; [exact Hd2 |].
    destruct (DaysInYear y =? 366); unfold DaysInMonth;
      repeat match goal with |- context [match ?x with _ => _ end] => destruct x end;
      lia. }
  unfold parseUTCDateTime, pad4, pad3, pad2, midnightSuffix.
  cbn [append list_ascii_of_string].
  cbn [Ascii.eqb Bool.eqb andb].
  rewrite num4_digits by lia.
  rewrite !num2_digits by lia.
  change (num2 "0" "0") with (Some 0).
  change (num3 "0" "0" "0") with (Some 0).
  cbv beta iota zeta.
  match goal with
  | |- (if ?c then _ else _) = _ => assert (E : c = true)
  end.
  { rewrite !andb_true_iff. repeat split; apply Z.leb_le; lia. }
  rewrite E.
  unfold MakeDate, MakeTime, msPerDay, msPerHour, msPerMinute, msPerSecond.
  f_equal. lia.
Qed.

(** [new Date(key + "T00:00:00.000Z")] is midnight of the day of [t]. *)
Lemma newDate_dayKey (host : string -> Date) (t : Z) :
  inFourDigitYears t ->
  newDate host (dayKey t ++ midnightSuffix) = Some (Day t * msPerDay).
Proof.
  intros Hy. rewrite dayKey_chars by exact Hy.
  pose proof (DayWithinYear_range t) as Hdwy.
  assert (Hleap : 0 <= InLeapYear t <= 1).
  { destruct (InLeapYear_cases t) as [[-> _] | [-> _]]; lia. }
  pose proof (month_and_date Hleap Hdwy) as [Hm Hd]. cbv zeta in Hm, Hd.
  fold (MonthFromTime t) in Hm, Hd. fold (DateFromTime t) in Hd.
  unfold newDate. rewrite parse_day_key.
  - replace (MonthFromTime t + 1 - 1) with (MonthFromTime t) by lia.
    assert (E : MakeDay (YearFromTime t) (MonthFromTime t) (DateFromTime t) = Day t).
    { unfold MakeDay. fold (InLeapYear t).
      unfold DateFromTime, DayWithinYear. lia. }
    rewrite E. unfold TimeClip.
    destruct Hy as [Hlo Hhi].
    pose proof (YearFromDay_spec (Day t)) as [Hd1 Hd2].
    fold (YearFromTime t) in Hd1, Hd2.
    pose proof (@DayFromYear_mono 0 (YearFromTime t) Hlo) as B1.
    pose proof (@DayFromYear_mono (YearFromTime t + 1) 10000 ltac:(lia)) as B2.
    change (DayFromYear 0) with (-719528) in B1.
    change (DayFromYear 10000) with 2932897 in B2.
    destruct (Z.gtb_spec (Z.abs (Day t * msPerDay)) 8640000000000000) as [G | G];
      [| reflexivity].
    unfold msPerDay in G. lia.
  - exact Hy.
  - lia.
  - replace (MonthFromTime t + 1 - 1) with (MonthFromTime t) by lia.
    fold (InLeapYear t). exact Hd.
Qed.

(** *** parseRawWeatherData *)

Definition isNumber (v : jsval) : bool :=
  match v with
  | JNumber _ => true
  | _ => false
  end.

Definition numberOf (v : jsval) : number :=
  match v with
  | JNumber x => x
  | _ => NaN
  end.

(** A host that reads nothing but the complete UTC form. *)
Definition standardFormatOnly : string -> Date := fun _ => None.

(** A payload with the given arrays; the other fields are immaterial. *)
Definition samplePayload (times : list string) (temps : list jsval)
  : WeatherData :=
  {| latitude := ofZ 52;
     longitude := ofZ 13;
     generationtime_ms := ofZ 0;
     utc_offset_seconds := ofZ 0;
     timezone := "GMT";
     timezone_abbreviation := "GMT";
     elevation := ofZ 38;
     hourly_units := {| units_time := "iso8601"; units_temperature_2m := "C" |};
     hourly := Some {| hourly_time := Some times;
                       hourly_temperature_2m := Some temps |} |}.

Section ParseProperties.

Variable host : string -> Date.

(** The pairs the callback keeps: the string parses to a valid date and
    the temperature is a number other than NaN. *)
Definition keptPair (p : string * jsval) : bool :=
  match newDate host (fst p) with
  | None => false
  | Some _ => isNumber (snd p) && negb (isNaN (numberOf (snd p)))
  end.

(** The pairs the spec keeps: a valid date and a finite number. *)
Definition finitePair (p : string * jsval) : bool :=
  match newDate host (fst p) with
  | None => false
  | Some _ => isNumber (snd p) && isFinite (numberOf (snd p))
  end.

Definition pointOfPair (p : string * jsval) : TimePoint :=
  {| time := newDate host (fst p); temperature := numberOf (snd p) |}.

Lemma parsePoint_inside (temps : list jsval) (iso : string) (i : nat)
  (v : jsval) :
  nth_error temps i = Some v ->
  parsePoint host temps iso i
  = if keptPair (iso, v) then Some (pointOfPair (iso, v)) else None.
Proof.
  intros Hv. unfold parsePoint, keptPair, pointOfPair. rewrite Hv. simpl.
  destruct (newDate host iso) as [t |]; [| reflexivity].
  destruct v as [| | b | x | s]; simpl; try reflexivity.
  destruct (isNaN x); reflexivity.
Qed.

Lemma parsePoint_outside (temps : list jsval) (iso : string) (i : nat) :
  nth_error temps i = None -> parsePoint host temps iso i = None.
Proof.
  intros Hv. unfold parsePoint. rewrite Hv.
  destruct (newDate host iso); reflexivity.
Qed.

(** Past the end of [temps] every index yields [null]. *)
Lemma mapi_from_outside (temps : list jsval) (times : list string) :
  forall i, (length temps <= i)%nat ->
    filterNotNull (mapi_from (parsePoint host temps) i times) = [].
Proof.
  induction times as [| iso times IH]; intros i Hi; simpl; [reflexivity |].
  rewrite parsePoint_outside by (apply nth_error_None; exact Hi).
  apply IH. lia.
Qed.

(** [map] with [temps[i]] followed by the null filter is a filter over the
    zipped arrays. *)
Lemma mapi_from_pairs (times : list string) :
  forall temps0 temps,
    filterNotNull
      (mapi_from (parsePoint host (temps0 ++ temps)) (length temps0) times)
    = map pointOfPair (filter keptPair (combine times temps)).
Proof.
  induction times as [| iso times IH]; intros temps0 temps; [reflexivity |].
  destruct temps as [| v temps].
  - apply mapi_from_outside. rewrite app_nil_r. lia.
  - cbn [mapi_from combine filter].
    rewrite (@parsePoint_inside _ iso _ v)
      by (rewrite nth_error_app2, Nat.sub_diag by lia; reflexivity).
    replace (temps0 ++ v :: temps) with ((temps0 ++ [v]) ++ temps)
      by (rewrite <- app_assoc; reflexivity).
    replace (S (length temps0)) with (length (temps0 ++ [v]))
      by (rewrite length_app; simpl; lia).
    destruct (keptPair (iso, v)); cbn [filterNotNull map];
      rewrite IH; reflexivity.
Qed.

Lemma mapi_pairs (times : list string) (temps : list jsval) :
  filterNotNull (mapi (parsePoint host temps) times)
  = map pointOfPair (filter keptPair (combine times temps)).
Proof.
  exact (mapi_from_pairs times [] temps).
Qed.

Lemma combine_truncated {A B : Type} (l1 : list A) (l2 : list B) :
  combine (firstn (Nat.min (length l1) (length l2)) l1)
          (firstn (Nat.min (length l1) (length l2)) l2)
  = combine l1 l2.
Proof.
  rewrite <- combine_firstn. apply firstn_all2.
  rewrite length_combine. lia.
Qed.

(** What the call returns and what it leaves in the payload, for a payload
    that has both arrays. *)
Lemma parseRawWeatherData_arrays (w : WeatherData) (h : Hourly)
  (times : list string) (temps : list jsval) :
  hourly w = Some h -> hourly_time h = Some times ->
  hourly_temperature_2m h = Some temps ->
  parseRawWeatherData host (Some w) =
  if (length times =? 0)%nat || (length temps =? 0)%nat then ([], Some w)
  else
    let m := Nat.min (length times) (length temps) in
    (map pointOfPair (filter keptPair (combine times temps)),
     if (length times =? length temps)%nat
     then Some (withHourlyArrays w times temps)
     else Some (withHourlyArrays w (firstn m times) (firstn m temps))).
Proof.
  intros Hh Ht Hv. unfold parseRawWeatherData. rewrite Hh, Ht, Hv.
  destruct ((length times =? 0)%nat || (length temps =? 0)%nat);
    [reflexivity |].
  destruct (Nat.eqb_spec (length times) (length temps)) as [E | E];
    cbn [negb splice fst]; cbv zeta.
  - rewrite mapi_pairs. reflexivity.
  - rewrite mapi_pairs, combine_truncated. reflexivity.
Qed.

(** The payload record is determined by its [hourly] arrays and the fields
    the call never touches. *)
Lemma withHourlyArrays_same (w : WeatherData) (h : Hourly)
  (times : list string) (temps : list jsval) :
  hourly w = Some h -> hourly_time h = Some times ->
  hourly_temperature_2m h = Some temps ->
  withHourlyArrays w times temps = w.
Proof.
  destruct w, h; simpl; intros; subst; reflexivity.
Qed.

Lemma parseRawWeatherData_result (w : WeatherData) (h : Hourly)
  (times : list string) (temps : list jsval) :
  hourly w = Some h -> hourly_time h = Some times ->
  hourly_temperature_2m h = Some temps ->
  fst (parseRawWeatherData host (Some w))
  = map pointOfPair (filter keptPair (combine times temps)).
Proof.
  intros Hh Ht Hv. rewrite (parseRawWeatherData_arrays _ Hh Ht Hv).
  destruct times as [| iso times]; [reflexivity |].
  destruct temps as [| v temps]; reflexivity.
Qed.

(** Where the payload is left as it was: nothing to parse, or arrays of
    one length. *)
Lemma parseRawWeatherData_frame_equal (w : WeatherData) (h : Hourly)
  (times : list string) (temps : list jsval) :
  hourly w = Some h -> hourly_time h = Some times ->
  hourly_temperature_2m h = Some temps ->
  length times = length temps ->
  snd (parseRawWeatherData host (Some w)) = Some w.
Proof.
  intros Hh Ht Hv E. rewrite (parseRawWeatherData_arrays _ Hh Ht Hv).
  destruct ((length times =? 0)%nat || (length temps =? 0)%nat);
    [reflexivity |].
  cbv zeta. cbn [snd].
  destruct (Nat.eqb_spec (length times) (length temps)) as [_ | Hne];
    [| elim Hne; exact E].
  f_equal. exact (withHourlyArrays_same _ Hh Ht Hv).
Qed.

End ParseProperties.

(** C1 (as amended).  [parseRawWeatherData] is a total function: nothing in
    its body can throw.  It returns the empty array when the payload, its
    [hourly] field or either array is absent and when either array is empty.
    For arrays of equal length it returns, in input order, one sample per
    index whose string parses to a valid date and whose temperature is a
    number other than NaN (so plus or minus Infinity is kept), and nothing
    for any other index; the length of the output is the number of such
    pairs. *)
Theorem parseRawWeatherData_spec (host : string -> Date) :
  fst (parseRawWeatherData host None) = [] /\
  (forall w, hourly w = None -> fst (parseRawWeatherData host (Some w)) = []) /\
  (forall w h,
      hourly w = Some h ->
      hourly_time h = None \/ hourly_temperature_2m h = None ->
      fst (parseRawWeatherData host (Some w)) = []) /\
  (forall w h times temps,
      hourly w = Some h -> hourly_time h = Some times ->
      hourly_temperature_2m h = Some temps ->
      (times = [] \/ temps = [] ->
       fst (parseRawWeatherData host (Some w)) = []) /\
      (length times = length temps ->
       fst (parseRawWeatherData host (Some w))
       = map (pointOfPair host) (filter (keptPair host) (combine times temps))
       /\ length (fst (parseRawWeatherData host (Some w)))
          = length (filter (keptPair host) (combine times temps)))).
Proof.
  split; [reflexivity |]. split; [| split].
  - intros w Hh. unfold parseRawWeatherData. rewrite Hh. reflexivity.
  - intros w h Hh Hnone. unfold parseRawWeatherData. rewrite Hh.
    destruct Hnone as [-> | ->]; [reflexivity |].
    destruct (hourly_time h); reflexivity.
  - intros w h times temps Hh Ht Hv.
    pose proof (parseRawWeatherData_result host _ Hh Ht Hv) as R.
    split.
    + intros [-> | ->]; rewrite R; [reflexivity |].
      destruct times; reflexivity.
    + intros _. rewrite R. split; [reflexivity | apply length_map].
Qed.

Definition infinitePayload : WeatherData :=
  samplePayload ["2025-07-09T00:00:00.000Z"%string] [JNumber Infinity].

(** C1, the claim as worded: with the one temperature Infinity the pair is
    not a (valid date, finite number) pair, yet the call returns a sample
    for it. *)
Lemma parseRawWeatherData_keeps_Infinity :
  fst (parseRawWeatherData standardFormatOnly (Some infinitePayload))
  = [ {| time := Some 1752019200000; temperature := Infinity |} ] /\
  filter (finitePair standardFormatOnly)
    (combine ["2025-07-09T00:00:00.000Z"%string] [JNumber Infinity]) = [] /\
  length (fst (parseRawWeatherData standardFormatOnly (Some infinitePayload)))
  <> length (filter (finitePair standardFormatOnly)
               (combine ["2025-07-09T00:00:00.000Z"%string] [JNumber Infinity])).
Proof.
  split; [vm_compute; reflexivity |].
  split; [vm_compute; reflexivity |].
  vm_compute. intros H. discriminate H.
Qed.

(** C3.  With arrays of different lengths the call works on the first
    [min (length times) (length temps)] elements of each: its result is the
    result for the payload with both arrays cut to that length, it pairs and
    filters exactly those prefixes, and when neither array is empty the
    payload is left holding the two prefixes. *)
Theorem parseRawWeatherData_truncates (host : string -> Date)
  (w : WeatherData) (h : Hourly) (times : list string) (temps : list jsval) :
  hourly w = Some h -> hourly_time h = Some times ->
  hourly_temperature_2m h = Some temps ->
  length times <> length temps ->
  let m := Nat.min (length times) (length temps) in
  fst (parseRawWeatherData host (Some w))
  = fst (parseRawWeatherData host
           (Some (withHourlyArrays w (firstn m times) (firstn m temps)))) /\
  fst (parseRawWeatherData host (Some w))
  = map (pointOfPair host)
      (filter (keptPair host) (combine (firstn m times) (firstn m temps))) /\
  (times <> [] -> temps <> [] ->
   snd (parseRawWeatherData host (Some w))
   = Some (withHourlyArrays w (firstn m times) (firstn m temps))).
Proof.
  intros Hh Ht Hv Hne m.
  pose proof (parseRawWeatherData_result host _ Hh Ht Hv) as R.
  assert (R' : fst (parseRawWeatherData host
                      (Some (withHourlyArrays w (firstn m times) (firstn m temps))))
               = map (pointOfPair host)
                   (filter (keptPair host)
                      (combine (firstn m times) (firstn m temps)))).
  { eapply parseRawWeatherData_result; reflexivity. }
  split; [| split].
  - rewrite R, R'. subst m. rewrite combine_truncated. reflexivity.
  - rewrite R. subst m. rewrite combine_truncated. reflexivity.
  - intros Hts Hvs. rewrite (parseRawWeatherData_arrays host _ Hh Ht Hv).
    destruct times as [| iso times]; [elim Hts; reflexivity |].
    destruct temps as [| v temps]; [elim Hvs; reflexivity |].
    cbn [length Nat.eqb orb]. cbv zeta. cbn [snd].
    destruct (Nat.eqb_spec (length times) (length temps)) as [E | E];
      [| reflexivity].
    elim Hne. simpl. f_equal. exact E.
Qed.

Definition threeTimes : list string :=
  ["2025-07-09T00:00:00.000Z"; "2025-07-09T01:00:00.000Z";
   "2025-07-09T02:00:00.000Z"]%string.

Definition twoTemps : list jsval := [JNumber (ofZ 5); JNumber (ofZ 6)].

Lemma parseRawWeatherData_truncates_witness :
  fst (parseRawWeatherData standardFormatOnly
         (Some (samplePayload threeTimes twoTemps)))
  = fst (parseRawWeatherData standardFormatOnly
           (Some (withHourlyArrays (samplePayload threeTimes twoTemps)
                    (firstn 2 threeTimes) (firstn 2 twoTemps)))) /\
  fst (parseRawWeatherData standardFormatOnly
         (Some (samplePayload threeTimes twoTemps)))
  = map (pointOfPair standardFormatOnly)
      (filter (keptPair standardFormatOnly)
         (combine (firstn 2 threeTimes) (firstn 2 twoTemps))) /\
  (threeTimes <> [] -> twoTemps <> [] ->
   snd (parseRawWeatherData standardFormatOnly
          (Some (samplePayload threeTimes twoTemps)))
   = Some (withHourlyArrays (samplePayload threeTimes twoTemps)
             (firstn 2 threeTimes) (firstn 2 twoTemps))).
Proof.
  apply (@parseRawWeatherData_truncates standardFormatOnly
           (samplePayload threeTimes twoTemps)
           {| hourly_time := Some threeTimes;
              hourly_temperature_2m := Some twoTemps |}
           threeTimes twoTemps); try reflexivity.
  simpl. lia.
Defined.

(** C4, at the failing input.  For [time] of three strings and
    [temperature_2m] of two numbers the call leaves the payload with [time]
    cut to its first two strings: the payload after the call is not the
    payload before it. *)
Theorem parseRawWeatherData_mutates_payload (host : string -> Date) :
  snd (parseRawWeatherData host (Some (samplePayload threeTimes twoTemps)))
  = Some (samplePayload (firstn 2 threeTimes) twoTemps) /\
  snd (parseRawWeatherData host (Some (samplePayload threeTimes twoTemps)))
  <> Some (samplePayload threeTimes twoTemps).
Proof.
  split; [reflexivity |].
  intros H. discriminate H.
Qed.

(** *** Distinct elements in order of first occurrence *)

Section Distinct.

Variable A : Type.
Variable eqb : A -> A -> bool.
Hypothesis eqb_spec : forall x y, reflect (x = y) (eqb x y).

Fixpoint distinct (l : list A) : list A :=
  match l with
  | [] => []
  | x :: l' => x :: filter (fun y => negb (eqb y x)) (distinct l')
  end.

Lemma distinct_In (l : list A) (x : A) : In x (distinct l) <-> In x l.
Proof.
  induction l as [| a l IH]; simpl; [tauto |].
  rewrite filter_In, IH.
  destruct (eqb_spec x a) as [-> | Hne]; simpl; [tauto |].
  split; [intros [H | [H _]]; auto | intros [H | H]; auto].
Qed.

Lemma distinct_NoDup (l : list A) : NoDup (distinct l).
Proof.
  induction l as [| a l IH]; simpl; constructor.
  - rewrite filter_In. intros [_ H].
    destruct (eqb_spec a a) as [_ | Hne]; [discriminate | elim Hne; reflexivity].
  - apply NoDup_filter. exact IH.
Qed.

(** One more element at the end: it is new or it was seen before. *)
Lemma distinct_snoc (l : list A) (k : A) :
  distinct (l ++ [k]) = if existsb (fun y => eqb y k) l then distinct l
                        else distinct l ++ [k].
Proof.
  induction l as [| a l IH]; simpl; [reflexivity |].
  rewrite IH.
  destruct (eqb_spec a k) as [-> | Hne]; simpl.
  - destruct (existsb (fun y => eqb y k) l); [reflexivity |].
    rewrite filter_app. simpl.
    destruct (eqb_spec k k) as [_ | Hne]; [| elim Hne; reflexivity].
    simpl. rewrite app_nil_r. reflexivity.
  - destruct (existsb (fun y => eqb y k) l); [reflexivity |].
    rewrite filter_app. simpl.
    destruct (eqb_spec k a) as [E | _]; [elim Hne; auto |].
    reflexivity.
Qed.

Lemma existsb_eqb_In (l : list A) (k : A) :
  existsb (fun y => eqb y k) l = true <-> In k l.
Proof.
  rewrite existsb_exists. split.
  - intros [y [Hin Hy]]. destruct (eqb_spec y k); [subst; exact Hin | discriminate].
  - intros Hin. exists k. split; [exact Hin |].
    destruct (eqb_spec k k) as [_ | Hne]; [reflexivity | elim Hne; reflexivity].
Qed.

End Distinct.

Arguments distinct_In {A eqb} eqb_spec l x.
Arguments distinct_NoDup {A eqb} eqb_spec l.
Arguments distinct_snoc {A eqb} eqb_spec l k.
Arguments existsb_eqb_In {A eqb} eqb_spec l k.

(** An injective renaming of the elements commutes with [distinct]. *)
Lemma distinct_map_injective {A B : Type} (eqbA : A -> A -> bool)
  (eqbB : B -> B -> bool)
  (specA : forall x y, reflect (x = y) (eqbA x y))
  (specB : forall x y, reflect (x = y) (eqbB x y))
  (f : A -> B) (l : list A) :
  (forall x y, In x l -> In y l -> f x = f y -> x = y) ->
  distinct eqbB (map f l) = map f (distinct eqbA l).
Proof.
  induction l as [| a l IH]; intros Hinj; simpl; [reflexivity |].
  f_equal. rewrite IH by (intros x y Hx Hy; apply Hinj; simpl; auto).
  clear IH.
  assert (Hsub : forall x, In x (distinct eqbA l) -> In x l)
    by (intros x; apply (distinct_In specA)).
  induction (distinct eqbA l) as [| x d IHd]; simpl; [reflexivity |].
  assert (E : eqbB (f x) (f a) = eqbA x a).
  { destruct (specA x a) as [-> | Hne].
    - destruct (specB (f a) (f a)) as [_ | H]; [reflexivity | elim H; reflexivity].
    - destruct (specB (f x) (f a)) as [H | _]; [| reflexivity].
      elim Hne. apply Hinj; simpl; auto. right. apply Hsub. simpl; auto. }
  rewrite E. rewrite IHd by (intros y Hy; apply Hsub; simpl; auto).
  destruct (eqbA x a); reflexivity.
Qed.

(** *** The bucket map *)

Lemma map_has_get (m : BucketMap) (k : string) :
  map_has m k = match map_get m k with Some _ => true | None => false end.
Proof.
  induction m as [| [k0 b0] m IH]; simpl; [reflexivity |].
  destruct (k0 =? k)%string; [reflexivity | exact IH].
Qed.

Lemma map_set_absent (m : BucketMap) (k : string) (b : Bucket) :
  map_get m k = None -> map_set m k b = m ++ [(k, b)].
Proof.
  induction m as [| [k0 b0] m IH]; simpl; [reflexivity |].
  destruct (k0 =? k)%string; [discriminate |].
  intros H. rewrite (IH H). reflexivity.
Qed.

Lemma map_get_snoc (m : BucketMap) (k : string) (b : Bucket) :
  map_get m k = None -> map_get (m ++ [(k, b)]) k = Some b.
Proof.
  induction m as [| [k0 b0] m IH]; simpl.
  - rewrite String.eqb_refl. reflexivity.
  - destruct (k0 =? k)%string; [discriminate | exact IH].
Qed.

Lemma map_set_snoc (m : BucketMap) (k : string) (b0 b : Bucket) :
  map_get m k = None -> map_set (m ++ [(k, b0)]) k b = m ++ [(k, b)].
Proof.
  induction m as [| [k1 b1] m IH]; simpl.
  - rewrite String.eqb_refl. reflexivity.
  - destruct (k1 =? k)%string; [discriminate |].
    intros H. rewrite (IH H). reflexivity.
Qed.

(** The map operations of one callback run, put together. *)
Definition upsert (m : BucketMap) (k : string) (pt : TimePoint) : BucketMap :=
  match map_get m k with
  | Some b => map_set m k (addToBucket b (time pt) (temperature pt))
  | None => m ++ [(k, addToBucket emptyBucket (time pt) (temperature pt))]
  end.

(** The samples the callback does not skip. *)
Definition validSample (pt : TimePoint) : bool :=
  match time pt with
  | Some _ => negb (isNaN (temperature pt))
  | None => false
  end.

Definition timeValue (pt : TimePoint) : Z :=
  match time pt with
  | Some t => t
  | None => 0
  end.

Definition keyOfSample (pt : TimePoint) : string := dayKey (timeValue pt).

(** The callback neither throws nor does anything but [upsert]. *)
Lemma bucketStep_Day (buckets : BucketMap) (pt : TimePoint) :
  bucketStep Day_ buckets pt
  = Ok (if validSample pt then upsert buckets (keyOfSample pt) pt else buckets).
Proof.
  unfold bucketStep, validSample, keyOfSample, timeValue, upsert.
  destruct (time pt) as [t |] eqn:Et; [| reflexivity].
  destruct (isNaN (temperature pt)); [reflexivity |].
  cbn [negb toISOString bind]. fold (dayKey t).
  rewrite map_has_get.
  destruct (map_get buckets (dayKey t)) as [b |] eqn:G; cbn [negb].
  - rewrite G. reflexivity.
  - rewrite (@map_set_absent _ _ _ G), (@map_get_snoc _ _ _ G),
      (@map_set_snoc _ _ _ _ G).
    reflexivity.
Qed.

(** For any other unit the callback leaves the map alone. *)
Lemma bucketStep_other (unit : TimeUnit) (buckets : BucketMap) (pt : TimePoint) :
  unit <> Day_ -> bucketStep unit buckets pt = Ok buckets.
Proof.
  intros Hu. unfold bucketStep.
  destruct (time pt); [| reflexivity].
  destruct (isNaN (temperature pt)); [reflexivity |].
  destruct unit; try reflexivity. elim Hu; reflexivity.
Qed.

Lemma foldM_total {A B : Type} (f : B -> A -> result B) (l : list A) :
  (forall b a, exists b', f b a = Ok b') ->
  forall b, exists b', foldM f l b = Ok b'.
Proof.
  intros Hf. induction l as [| a l IH]; intros b; simpl; [eauto |].
  destruct (Hf b a) as [b1 ->]. simpl. apply IH.
Qed.

(** [aggregateByUnit] never throws. *)
Lemma aggregateByUnit_total (host : string -> Date) (series : list TimePoint)
  (unit : TimeUnit) :
  exists out, aggregateByUnit host series unit = Ok out.
Proof.
  unfold aggregateByUnit.
  destruct series as [| pt series]; [eauto |].
  assert (Hstep : forall u b a, exists b', bucketStep u b a = Ok b').
  { intros u b a. destruct u; try (rewrite bucketStep_other by discriminate; eauto).
    rewrite bucketStep_Day. eauto. }
  destruct unit; [eauto | |];
    match goal with
    | |- context [foldM (bucketStep ?u) ?l ?b] =>
        destruct (foldM_total (bucketStep u) l (Hstep u) b) as [bs ->]
    end; simpl; eauto.
Qed.

(** *** The buckets after the loop *)

Definition groupOfKey (valid : list TimePoint) (k : string) : list TimePoint :=
  filter (fun pt => (keyOfSample pt =? k)%string) valid.

Definition bucketOfGroup (g : list TimePoint) : Bucket :=
  fold_left (fun b pt => addToBucket b (time pt) (temperature pt)) g emptyBucket.

(** One bucket per key in order of first occurrence, each holding the
    samples of its key in input order. *)
Definition bucketsOf (valid : list TimePoint) : BucketMap :=
  map (fun k => (k, bucketOfGroup (groupOfKey valid k)))
    (distinct String.eqb (map keyOfSample valid)).

Section MappedBuckets.

Variable F : string -> Bucket.

Lemma map_get_mapped (ks : list string) (k : string) :
  In k ks -> map_get (map (fun k' => (k', F k')) ks) k = Some (F k).
Proof.
  induction ks as [| k0 ks IH]; intros Hin; [destruct Hin |].
  simpl. destruct (String.eqb_spec k0 k) as [-> | Hne]; [reflexivity |].
  destruct Hin as [E | Hin]; [elim Hne; exact E | exact (IH Hin)].
Qed.

Lemma map_get_mapped_none (ks : list string) (k : string) :
  ~ In k ks -> map_get (map (fun k' => (k', F k')) ks) k = None.
Proof.
  induction ks as [| k0 ks IH]; intros Hnin; [reflexivity |].
  simpl. destruct (String.eqb_spec k0 k) as [-> | Hne].
  - elim Hnin. simpl; auto.
  - apply IH. intros H. apply Hnin. simpl; auto.
Qed.

Lemma map_set_mapped (ks : list string) (k : string) (b : Bucket) :
  NoDup ks -> In k ks ->
  map_set (map (fun k' => (k', F k')) ks) k b
  = map (fun k' => (k', if (k' =? k)%string then b else F k')) ks.
Proof.
  induction ks as [| k0 ks IH]; intros Hnd Hin; [destruct Hin |].
  inversion Hnd as [| ? ? Hk0 Hnd']; subst.
  simpl. destruct (String.eqb_spec k0 k) as [-> | Hne].
  - f_equal. apply map_ext_in. intros k' Hk'.
    destruct (String.eqb_spec k' k) as [-> | _]; [elim Hk0; exact Hk' | reflexivity].
  - f_equal. apply IH; [exact Hnd' |].
    destruct Hin as [E | Hin]; [elim Hne; exact E | exact Hin].
Qed.

End MappedBuckets.

Lemma groupOfKey_snoc (valid : list TimePoint) (pt : TimePoint) (k : string) :
  groupOfKey (valid ++ [pt]) k
  = groupOfKey valid k ++ (if (keyOfSample pt =? k)%string then [pt] else []).
Proof.
  unfold groupOfKey. rewrite filter_app. simpl.
  destruct (keyOfSample pt =? k)%string; reflexivity.
Qed.

Lemma groupOfKey_absent (valid : list TimePoint) (k : string) :
  ~ In k (map keyOfSample valid) -> groupOfKey valid k = [].
Proof.
  intros Hnin. unfold groupOfKey.
  induction valid as [| pt valid IH]; [reflexivity |].
  simpl. destruct (String.eqb_spec (keyOfSample pt) k) as [E | _].
  - elim Hnin. simpl; auto.
  - apply IH. intros H. apply Hnin. simpl; auto.
Qed.

Lemma bucketOfGroup_snoc (g : list TimePoint) (pt : TimePoint) :
  bucketOfGroup (g ++ [pt])
  = addToBucket (bucketOfGroup g) (time pt) (temperature pt).
Proof.
  unfold bucketOfGroup. rewrite fold_left_app. reflexivity.
Qed.

(** Adding a sample to the buckets of [valid] gives the buckets of
    [valid ++ [pt]]. *)
Lemma upsert_bucketsOf (valid : list TimePoint) (pt : TimePoint) :
  upsert (bucketsOf valid) (keyOfSample pt) pt = bucketsOf (valid ++ [pt]).
Proof.
  set (k := keyOfSample pt).
  unfold upsert, bucketsOf.
  rewrite map_app. cbn [map]. fold k.
  rewrite (distinct_snoc String.eqb_spec).
  destruct (existsb (fun y => (y =? k)%string) (map keyOfSample valid)) eqn:Ex.
  - apply (existsb_eqb_In String.eqb_spec) in Ex.
    assert (Hin : In k (distinct String.eqb (map keyOfSample valid)))
      by (apply (distinct_In String.eqb_spec); exact Ex).
    rewrite map_get_mapped by exact Hin.
    rewrite map_set_mapped
      by (try apply (distinct_NoDup String.eqb_spec); exact Hin).
    apply map_ext. intros k'. f_equal.
    rewrite groupOfKey_snoc. fold k. rewrite (String.eqb_sym k k').
    destruct (String.eqb_spec k' k) as [-> | _].
    + apply eq_sym, bucketOfGroup_snoc.
    + rewrite app_nil_r. reflexivity.
  - assert (Hnin : ~ In k (map keyOfSample valid)).
    { intros H. apply (existsb_eqb_In String.eqb_spec) in H. congruence. }
    rewrite map_get_mapped_none
      by (rewrite (distinct_In String.eqb_spec); exact Hnin).
    rewrite map_app. cbn [map]. f_equal.
    + apply map_ext_in. intros k' Hk'. f_equal.
      rewrite groupOfKey_snoc. fold k.
      destruct (String.eqb_spec k k') as [E | _]; [| rewrite app_nil_r; reflexivity].
      elim Hnin. rewrite E. apply (distinct_In String.eqb_spec). exact Hk'.
    + rewrite groupOfKey_snoc. fold k.
      rewrite String.eqb_refl, (@groupOfKey_absent _ _ Hnin). reflexivity.
Qed.

(** The loop never throws and builds [bucketsOf] of the samples it keeps. *)
Lemma bucket_loop (series : list TimePoint) :
  foldM (bucketStep Day_) series [] = Ok (bucketsOf (filter validSample series)).
Proof.
  induction series as [| pt series IH] using rev_ind; [reflexivity |].
  rewrite foldM_app, IH. cbn [bind foldM]. rewrite bucketStep_Day. cbn [bind].
  rewrite filter_app. cbn [filter].
  destruct (validSample pt).
  - rewrite upsert_bucketsOf. reflexivity.
  - rewrite app_nil_r. reflexivity.
Qed.

(** *** From day keys to calendar days *)

Definition dayOf (pt : TimePoint) : Z := Day (timeValue pt).

(** The key of day number [d], read off its midnight. *)
Definition keyOfDay (d : Z) : string := dayKey (d * msPerDay).

Lemma Day_of_midnight (d : Z) : Day (d * msPerDay) = d.
Proof.
  unfold Day. apply Z.div_mul. discriminate.
Qed.

Lemma midnight_inFourDigitYears (t : Z) :
  inFourDigitYears t -> inFourDigitYears (Day t * msPerDay).
Proof.
  unfold inFourDigitYears, YearFromTime. rewrite Day_of_midnight. auto.
Qed.

Lemma keyOfSample_day (pt : TimePoint) :
  inFourDigitYears (timeValue pt) -> keyOfSample pt = keyOfDay (dayOf pt).
Proof.
  intros H. unfold keyOfSample, keyOfDay, dayOf.
  apply dayKey_Day; [exact H | rewrite Day_of_midnight; reflexivity].
Qed.

(** Two days of four-digit years with one key are one day. *)
Lemma dayKey_injective (t1 t2 : Z) :
  inFourDigitYears t1 -> inFourDigitYears t2 ->
  dayKey t1 = dayKey t2 -> Day t1 = Day t2.
Proof.
  intros H1 H2 E.
  pose proof (newDate_dayKey standardFormatOnly H1) as P1.
  pose proof (newDate_dayKey standardFormatOnly H2) as P2.
  rewrite E, P2 in P1. injection P1 as P1. unfold msPerDay in P1. lia.
Qed.

Lemma keyOfSample_eqb (pt : TimePoint) (t : Z) :
  inFourDigitYears (timeValue pt) -> inFourDigitYears t ->
  (keyOfSample pt =? keyOfDay (Day t))%string = (dayOf pt =? Day t).
Proof.
  intros Hpt Ht. unfold keyOfSample, keyOfDay, dayOf.
  destruct (Z.eqb_spec (Day (timeValue pt)) (Day t)) as [E | Hne].
  - apply String.eqb_eq. apply dayKey_Day; [exact Hpt |].
    rewrite Day_of_midnight. exact E.
  - apply String.eqb_neq. intros E. apply Hne.
    apply dayKey_injective in E;
      [| exact Hpt | apply midnight_inFourDigitYears; exact Ht].
    rewrite Day_of_midnight in E. exact E.
Qed.

(** *** The mean of a bucket *)

Definition jsSum (xs : list number) : number := fold_left add xs (ofZ 0).

Definition jsCount (xs : list number) : number :=
  fold_left (fun c _ => add c (ofZ 1)) xs (ofZ 0).

(** The arithmetic mean as the code computes it: the sum from 0 in input
    order over the count from 0 in steps of 1, in binary64. *)
Definition jsMean (xs : list number) : number := div (jsSum xs) (jsCount xs).

Lemma bucket_fold_sum (g : list TimePoint) :
  forall b,
    sum (fold_left (fun b pt => addToBucket b (time pt) (temperature pt)) g b)
    = fold_left add (map temperature g) (sum b).
Proof.
  induction g as [| pt g IH]; intros b; simpl; [reflexivity | apply IH].
Qed.

Lemma bucket_fold_count (g : list TimePoint) :
  forall b,
    count (fold_left (fun b pt => addToBucket b (time pt) (temperature pt)) g b)
    = fold_left (fun c _ => add c (ofZ 1)) (map temperature g) (count b).
Proof.
  induction g as [| pt g IH]; intros b; simpl; [reflexivity | apply IH].
Qed.

Lemma bucketOfGroup_mean (g : list TimePoint) :
  div (sum (bucketOfGroup g)) (count (bucketOfGroup g))
  = jsMean (map temperature g).
Proof.
  unfold bucketOfGroup, jsMean, jsSum, jsCount.
  rewrite bucket_fold_sum, bucket_fold_count. reflexivity.
Qed.

(** *** The aggregation by day, stated on calendar days *)

(** The days that have a kept sample, in order of first occurrence. *)
Definition sampleDays (series : list TimePoint) : list Z :=
  distinct Z.eqb (map dayOf (filter validSample series)).

(** The kept samples of day [d], in input order. *)
Definition dayGroup (series : list TimePoint) (d : Z) : list TimePoint :=
  filter (fun pt => dayOf pt =? d) (filter validSample series).

Definition dayMean (series : list TimePoint) (d : Z) : number :=
  jsMean (map temperature (dayGroup series d)).

(** The sample of day [d]: its midnight and its mean, unless the mean is
    NaN. *)
Definition dayPoint (series : list TimePoint) (d : Z) : option TimePoint :=
  if isNaN (dayMean series d) then None
  else Some {| time := Some (d * msPerDay); temperature := dayMean series d |}.

Definition aggregateDaySpec (series : list TimePoint) : list TimePoint :=
  sort compareByTime (filterNotNull (map (dayPoint series) (sampleDays series))).

Definition fourDigitSeries (series : list TimePoint) : Prop :=
  forall pt t, In pt series -> time pt = Some t -> inFourDigitYears t.

Lemma kept_inFourDigitYears (series : list TimePoint) (pt : TimePoint) :
  fourDigitSeries series -> In pt (filter validSample series) ->
  inFourDigitYears (timeValue pt).
Proof.
  intros H Hin. apply filter_In in Hin. destruct Hin as [Hin Hv].
  unfold validSample in Hv. unfold timeValue.
  destruct (time pt) as [t |] eqn:Et; [| discriminate].
  exact (H pt t Hin Et).
Qed.

Lemma sampleDays_In (series : list TimePoint) (d : Z) :
  In d (sampleDays series) <->
  exists pt, In pt series /\ validSample pt = true /\ dayOf pt = d.
Proof.
  unfold sampleDays. rewrite (distinct_In Z.eqb_spec), in_map_iff.
  split.
  - intros [pt [E Hin]]. apply filter_In in Hin. destruct Hin as [Hin Hv].
    exists pt. auto.
  - intros [pt [Hin [Hv E]]]. exists pt. split; [exact E |].
    apply filter_In. auto.
Qed.

(** The guard on the empty series changes nothing for [Day]. *)
Lemma aggregateByUnit_Day_loop (host : string -> Date) (series : list TimePoint) :
  aggregateByUnit host series Day_ =
  (buckets <- foldM (bucketStep Day_) series [] ;;
   Ok (sort compareByTime (filterNotNull (map (bucketPoint host) buckets)))).
Proof.
  destruct series; reflexivity.
Qed.

Section DayBuckets.

Variable host : string -> Date.
Variable series : list TimePoint.
Hypothesis Hyears : fourDigitSeries series.

Let valid := filter validSample series.

Lemma sampleDay_midnight (d : Z) :
  In d (map dayOf valid) ->
  exists t, inFourDigitYears t /\ d = Day t.
Proof.
  intros Hd. apply in_map_iff in Hd. destruct Hd as [pt [E Hin]].
  exists (timeValue pt). split; [| symmetry; exact E].
  apply kept_inFourDigitYears with (series := series); assumption.
Qed.

Lemma keys_as_days :
  distinct String.eqb (map keyOfSample valid)
  = map keyOfDay (sampleDays series).
Proof.
  unfold sampleDays. fold valid.
  rewrite <- (@distinct_map_injective _ _ Z.eqb String.eqb
                Z.eqb_spec String.eqb_spec).
  - f_equal. rewrite map_map. apply map_ext_in. intros pt Hin.
    apply keyOfSample_day.
    apply kept_inFourDigitYears with (series := series); assumption.
  - intros d1 d2 H1 H2 E.
    destruct (@sampleDay_midnight d1 H1) as [t1 [Y1 ->]].
    destruct (@sampleDay_midnight d2 H2) as [t2 [Y2 ->]].
    unfold keyOfDay in E. apply dayKey_injective in E.
    + rewrite !Day_of_midnight in E. exact E.
    + apply midnight_inFourDigitYears; exact Y1.
    + apply midnight_inFourDigitYears; exact Y2.
Qed.

Lemma group_as_day (d : Z) :
  In d (sampleDays series) -> groupOfKey valid (keyOfDay d) = dayGroup series d.
Proof.
  intros Hd. apply (proj1 (distinct_In Z.eqb_spec _ _)) in Hd.
  fold valid in Hd.
  destruct (@sampleDay_midnight d Hd) as [t [Y ->]].
  unfold groupOfKey, dayGroup. fold valid.
  apply filter_ext_in. intros pt Hin.
  apply keyOfSample_eqb; [| exact Y].
  apply kept_inFourDigitYears with (series := series); assumption.
Qed.

(** Each bucket becomes the sample of its day. *)
Lemma buckets_as_days :
  map (bucketPoint host) (bucketsOf valid)
  = map (dayPoint series) (sampleDays series).
Proof.
  unfold bucketsOf. rewrite keys_as_days, !map_map.
  apply map_ext_in. intros d Hd.
  rewrite (@group_as_day d Hd).
  unfold bucketPoint, dayPoint, dayMean.
  rewrite bucketOfGroup_mean.
  destruct (isNaN (jsMean (map temperature (dayGroup series d))));
    [reflexivity |].
  apply (proj1 (distinct_In Z.eqb_spec _ _)) in Hd.
  fold valid in Hd.
  destruct (@sampleDay_midnight d Hd) as [t [Y ->]].
  unfold keyOfDay.
  rewrite newDate_dayKey by (apply midnight_inFourDigitYears; exact Y).
  rewrite Day_of_midnight. reflexivity.
Qed.

Lemma aggregateByUnit_Day_eq :
  aggregateByUnit host series Day_ = Ok (aggregateDaySpec series).
Proof.
  rewrite aggregateByUnit_Day_loop, bucket_loop. cbn [bind].
  fold valid. rewrite buckets_as_days. reflexivity.
Qed.

End DayBuckets.

(** *** The final sort *)

Lemma insertSorted_Permutation {A : Type} (cmp : A -> A -> option Z) (x : A)
  (l : list A) :
  Permutation (insertSorted cmp x l) (x :: l).
Proof.
  induction l as [| y l IH]; simpl; [apply Permutation_refl |].
  destruct (sortCompare cmp x y <=? 0); [apply Permutation_refl |].
  eapply Permutation_trans; [apply perm_skip; exact IH | apply perm_swap].
Qed.

Lemma sort_Permutation {A : Type} (cmp : A -> A -> option Z) (l : list A) :
  Permutation (sort cmp l) l.
Proof.
  induction l as [| x l IH]; simpl; [apply Permutation_refl |].
  eapply Permutation_trans; [apply insertSorted_Permutation |].
  apply perm_skip. exact IH.
Qed.

Definition hasTime (pt : TimePoint) : Prop := time pt <> None.

Definition timeLe (a b : TimePoint) : Prop := timeValue a <= timeValue b.

Definition timeLt (a b : TimePoint) : Prop := timeValue a < timeValue b.

Lemma sortCompare_byTime (a b : TimePoint) :
  hasTime a -> hasTime b ->
  sortCompare compareByTime a b = timeValue a - timeValue b.
Proof.
  unfold hasTime, sortCompare, compareByTime, timeValue.
  destruct (time a); [| intros H; elim H; reflexivity].
  destruct (time b); [| intros _ H; elim H; reflexivity].
  reflexivity.
Qed.

Lemma insertSorted_sorted (x : TimePoint) (l : list TimePoint) :
  hasTime x -> Forall hasTime l ->
  StronglySorted timeLe l ->
  StronglySorted timeLe (insertSorted compareByTime x l).
Proof.
  intros Hx Hl Hs. induction Hs as [| y l Hs IH Hy]; simpl.
  - constructor; constructor.
  - inversion Hl as [| ? ? Hty Hl']; subst.
    rewrite sortCompare_byTime by assumption.
    destruct (Z.leb_spec (timeValue x - timeValue y) 0) as [Hle | Hgt].
    + constructor; [constructor; assumption |].
      constructor; [unfold timeLe; lia |].
      eapply Forall_impl; [| exact Hy].
      unfold timeLe. intros z Hz. lia.
    + constructor; [apply IH; exact Hl' |].
      eapply Permutation_Forall;
        [apply Permutation_sym, insertSorted_Permutation |].
      constructor; [unfold timeLe; lia | exact Hy].
Qed.

(** On dates that are all valid the stable sort with the subtracting
    comparator orders by time value. *)
Lemma sort_sorted (l : list TimePoint) :
  Forall hasTime l -> StronglySorted timeLe (sort compareByTime l).
Proof.
  induction 1 as [| x l Hx Hl IH]; simpl; [constructor |].
  apply insertSorted_sorted; [exact Hx | | exact IH].
  eapply Permutation_Forall; [apply Permutation_sym, sort_Permutation | exact Hl].
Qed.

Lemma sorted_strict (l : list TimePoint) :
  StronglySorted timeLe l -> NoDup (map timeValue l) -> StronglySorted timeLt l.
Proof.
  induction 1 as [| x l Hs IH Hx]; intros Hnd; [constructor |].
  simpl in Hnd. inversion Hnd as [| ? ? Hnin Hnd']; subst.
  constructor; [apply IH; exact Hnd' |].
  rewrite Forall_forall in *. intros y Hy.
  specialize (Hx y Hy). unfold timeLe in Hx. unfold timeLt.
  destruct (Z.eq_dec (timeValue x) (timeValue y)) as [E | Hne]; [| lia].
  elim Hnin. rewrite E. apply in_map. exact Hy.
Qed.

Lemma filterNotNull_In {A : Type} (l : list (option A)) (a : A) :
  In a (filterNotNull l) <-> In (Some a) l.
Proof.
  induction l as [| [b |] l IH]; simpl; [tauto | |].
  - rewrite IH. split; intros [H | H]; auto; [left; congruence |].
    injection H as ->. auto.
  - rewrite IH. split; [auto | intros [H | H]; [discriminate | exact H]].
Qed.

(** The unsorted output: what the buckets give, day by day. *)
Definition dayPoints (series : list TimePoint) : list TimePoint :=
  filterNotNull (map (dayPoint series) (sampleDays series)).

Lemma dayPoints_In (series : list TimePoint) (p : TimePoint) :
  In p (dayPoints series) <->
  exists d, In d (sampleDays series) /\ isNaN (dayMean series d) = false /\
            p = {| time := Some (d * msPerDay); temperature := dayMean series d |}.
Proof.
  unfold dayPoints. rewrite filterNotNull_In, in_map_iff. unfold dayPoint.
  split.
  - intros [d [E Hd]]. exists d.
    destruct (isNaN (dayMean series d)); [discriminate |].
    injection E as <-. auto.
  - intros [d [Hd [Hn ->]]]. exists d. rewrite Hn. auto.
Qed.

Lemma dayPoints_times_NoDup (series : list TimePoint) (days : list Z) :
  NoDup days ->
  NoDup (map timeValue (filterNotNull (map (dayPoint series) days))).
Proof.
  induction 1 as [| d days Hnin Hnd IH]; simpl; [constructor |].
  unfold dayPoint at 1.
  destruct (isNaN (dayMean series d)); [exact IH |].
  simpl. constructor; [| exact IH].
  intros Hin. apply in_map_iff in Hin. destruct Hin as [p [E Hp]].
  apply filterNotNull_In, in_map_iff in Hp. destruct Hp as [d' [Ed Hd']].
  unfold dayPoint in Ed.
  destruct (isNaN (dayMean series d')); [discriminate |].
  injection Ed as <-. unfold timeValue in E. simpl in E.
  unfold msPerDay in E. assert (d' = d) by lia. subst d'. contradiction.
Qed.

Lemma dayPoints_hasTime (series : list TimePoint) :
  Forall hasTime (dayPoints series).
Proof.
  apply Forall_forall. intros p Hp. apply dayPoints_In in Hp.
  destruct Hp as [d [_ [_ ->]]]. unfold hasTime. simpl. discriminate.
Qed.

(** Two strictly ascending arrangements of the same samples are equal, so
    the sorted output does not depend on the sorting algorithm of the
    engine. *)
Lemma strictly_sorted_unique (l1 : list TimePoint) :
  forall l2,
    Permutation l1 l2 ->
    StronglySorted timeLt l1 -> StronglySorted timeLt l2 -> l1 = l2.
Proof.
  induction l1 as [| x l1 IH]; intros l2 Hp H1 H2.
  - apply Permutation_nil in Hp. auto.
  - destruct l2 as [| y l2];
      [apply Permutation_sym, Permutation_nil in Hp; discriminate |].
    apply StronglySorted_inv in H1. destruct H1 as [H1 Hx].
    apply StronglySorted_inv in H2. destruct H2 as [H2 Hy].
    rewrite Forall_forall in Hx, Hy.
    assert (E : x = y).
    { assert (Hxin : In x (y :: l2))
        by (eapply Permutation_in; [exact Hp | simpl; auto]).
      assert (Hyin : In y (x :: l1))
        by (eapply Permutation_in; [apply Permutation_sym; exact Hp | simpl; auto]).
      destruct Hxin as [E | Hxin]; [auto |].
      destruct Hyin as [E | Hyin]; [auto |].
      specialize (Hx y Hyin). specialize (Hy x Hxin).
      unfold timeLt in *. lia. }
    subst y. f_equal. apply IH; [| exact H1 | exact H2].
    eapply Permutation_cons_inv. exact Hp.
Qed.

Definition julyNinthToTenth : list TimePoint :=
  [sampleAt 1752022800000 10; sampleAt 1752066000000 20;
   sampleAt 1752105600000 30].

(** C2 (as amended).  For a series whose valid times lie in the years 0000
    to 9999, [aggregateByUnit] with [Day] returns without throwing the list
    [aggregateDaySpec]: the samples it keeps (valid time, temperature not
    NaN) are grouped by UTC day number; every day whose mean (sum over
    count, in input order, in binary64) is not NaN gives exactly one output
    sample, at that day's midnight UTC with that mean, a day whose mean is
    NaN gives none, and there is no other output; the output is strictly
    ascending by time.  The three samples of 2025-07-09T01:00Z (10),
    2025-07-09T13:00Z (20) and 2025-07-10T00:00Z (30) give
    (2025-07-09T00:00Z, 15), (2025-07-10T00:00Z, 30). *)
Theorem aggregateByUnit_Day_spec (host : string -> Date) :
  (forall series,
      fourDigitSeries series ->
      aggregateByUnit host series Day_ = Ok (aggregateDaySpec series) /\
      (forall p,
          In p (aggregateDaySpec series) <->
          exists d, In d (sampleDays series) /\
                    isNaN (dayMean series d) = false /\
                    p = {| time := Some (d * msPerDay);
                           temperature := dayMean series d |}) /\
      Permutation (aggregateDaySpec series) (dayPoints series) /\
      NoDup (map timeValue (aggregateDaySpec series)) /\
      StronglySorted timeLt (aggregateDaySpec series) /\
      NoDup (sampleDays series) /\
      (forall d,
          In d (sampleDays series) <->
          exists pt, In pt series /\ validSample pt = true /\ dayOf pt = d)) /\
  aggregateByUnit host julyNinthToTenth Day_
  = Ok [sampleAt 1752019200000 15; sampleAt 1752105600000 30].
Proof.
  split; [| vm_compute; reflexivity].
  intros series Hyears.
  assert (Hperm : Permutation (aggregateDaySpec series) (dayPoints series))
    by apply sort_Permutation.
  assert (Hnd : NoDup (map timeValue (aggregateDaySpec series))).
  { eapply Permutation_NoDup;
      [apply Permutation_map, Permutation_sym; exact Hperm |].
    apply dayPoints_times_NoDup. apply (distinct_NoDup Z.eqb_spec). }
  split; [apply aggregateByUnit_Day_eq; exact Hyears |].
  split.
  { intros p. rewrite <- dayPoints_In. split; intros Hp.
    - eapply Permutation_in; [exact Hperm | exact Hp].
    - eapply Permutation_in; [apply Permutation_sym; exact Hperm | exact Hp]. }
  split; [exact Hperm |]. split; [exact Hnd |].
  split.
  { apply sorted_strict; [| exact Hnd].
    apply sort_sorted, dayPoints_hasTime. }
  split; [apply (distinct_NoDup Z.eqb_spec) | apply sampleDays_In].
Qed.

Lemma julyNinthToTenth_years : fourDigitSeries julyNinthToTenth.
Proof.
  intros pt t Hin Et.
  repeat (destruct Hin as [<- | Hin];
          [injection Et as <-; vm_compute; split; discriminate |]).
  destruct Hin.
Qed.

Lemma aggregateByUnit_Day_spec_witness :
  aggregateByUnit standardFormatOnly julyNinthToTenth Day_
  = Ok (aggregateDaySpec julyNinthToTenth) /\
  StronglySorted timeLt (aggregateDaySpec julyNinthToTenth).
Proof.
  destruct (proj1 (aggregateByUnit_Day_spec standardFormatOnly)
              julyNinthToTenth julyNinthToTenth_years)
    as [Heq [_ [_ [_ [Hs _]]]]].
  split; [exact Heq | exact Hs].
Defined.

(** Two samples of 2025-07-09 with temperatures Infinity and -Infinity and
    one of 2025-07-10 with Infinity. *)
Definition infiniteDays : list TimePoint :=
  [ {| time := Some 1752022800000; temperature := Infinity |};
    {| time := Some 1752066000000; temperature := NegInfinity |};
    {| time := Some 1752105600000; temperature := Infinity |} ].

(** What the claim promises for every day that has a valid sample. *)
Definition oneSamplePerDay (series out : list TimePoint) : Prop :=
  forall d, In d (sampleDays series) ->
    exists p, In p out /\ time p = Some (d * msPerDay).

(** C2, the claim as worded (one output sample per distinct day of the
    valid samples): all three samples of [infiniteDays] pass the checks of
    the loop and lie on two days, but the mean of the first day is NaN and
    the guard on the mean drops its bucket, so one sample comes out and
    2025-07-09 has none.  (Read with "valid" as "finite", the claim has no
    valid sample here and yet one sample comes out.) *)
Lemma aggregateByUnit_Day_drops_NaN_mean :
  aggregateByUnit standardFormatOnly infiniteDays Day_
  = Ok [ {| time := Some 1752105600000; temperature := Infinity |} ] /\
  forallb validSample infiniteDays = true /\
  sampleDays infiniteDays = [20278; 20279] /\
  filter (fun pt => isFinite (temperature pt)) infiniteDays = [] /\
  ~ oneSamplePerDay infiniteDays
      [ {| time := Some 1752105600000; temperature := Infinity |} ].
Proof.
  split; [vm_compute; reflexivity |].
  split; [vm_compute; reflexivity |].
  assert (Hdays : sampleDays infiniteDays = [20278; 20279])
    by (vm_compute; reflexivity).
  split; [exact Hdays |].
  split; [vm_compute; reflexivity |].
  intros H. destruct (H 20278) as [p [Hin Ht]].
  - rewrite Hdays. simpl. auto.
  - destruct Hin as [<- | []]. simpl in Ht. discriminate Ht.
Qed.

(** C9.  With [Hour] the aggregator returns its input as it is, for every
    series, the empty one included; in particular it returns the parser's
    output for every payload. *)
Theorem aggregateByUnit_Hour_identity (host : string -> Date) :
  (forall series, aggregateByUnit host series Hour = Ok series) /\
  (forall raw,
      aggregateByUnit host (fst (parseRawWeatherData host raw)) Hour
      = Ok (fst (parseRawWeatherData host raw))).
Proof.
  assert (H : forall series, aggregateByUnit host series Hour = Ok series)
    by (intros [| pt series]; reflexivity).
  split; [exact H | intros raw; apply H].
Qed.

(** *** debugWeatherDataPipeline *)

(** A call of [filterByRange] that returns had only valid dates in its
    range. *)
Lemma filterByRange_Ok_valid (series : list TimePoint) (range : list Date)
  (out : list TimePoint) :
  filterByRange series range = Ok out -> Forall validDate range.
Proof.
  intros H. apply Forall_forall. intros d Hd Hnone. subst d.
  rewrite (filterByRange_invalid series _ Hd) in H. discriminate H.
Qed.

Lemma isoStringAt_valid (range : list Date) (i : nat) :
  Forall validDate range -> (i < length range)%nat ->
  exists s, isoStringAt range i = Ok s.
Proof.
  intros Hvalid Hi. unfold isoStringAt.
  destruct (nth_error range i) as [d |] eqn:E.
  - rewrite Forall_forall in Hvalid.
    pose proof (Hvalid d (nth_error_In _ _ E)) as Hd.
    destruct d as [t |]; [simpl; eauto | elim Hd; reflexivity].
  - apply nth_error_None in E. lia.
Qed.

Lemma length_zero_nil {A : Type} (l : list A) :
  (length l =? 0)%nat = true <-> l = [].
Proof.
  destruct l; simpl; split; intros H; try reflexivity; discriminate.
Qed.

Lemma length_nonzero {A : Type} (l : list A) :
  l <> [] -> (length l =? 0)%nat = false.
Proof.
  destruct l; [intros H; elim H; reflexivity | reflexivity].
Qed.

Definition defaultUnit (unit : option TimeUnit) : TimeUnit :=
  match unit with
  | Some u => u
  | None => Hour
  end.

(** The filtering stage: skipped when no range is given. *)
Definition rangeStage (parsed : list TimePoint) (range : option (list Date))
  : result (list TimePoint) :=
  match range with
  | Some r => filterByRange parsed r
  | None => Ok parsed
  end.

Definition emptyPayload : WeatherData := samplePayload [] [].

(** C7.  [debugWeatherDataPipeline] returns for every payload, range and
    unit: an exception raised inside [try] (by [filterByRange] on an invalid
    bound, or by the closing log on a range of fewer than two dates) is
    caught and the result is then the empty array.  The result is empty when
    the parser returns nothing and when the range filter returns nothing;
    otherwise, for no range or a range of two or more dates, it is what the
    aggregator returns.  On a payload with two empty arrays, without a range
    and with [Hour], it is empty. *)
Theorem debugWeatherDataPipeline_never_raises (host : string -> Date)
  (raw : option WeatherData) (range : option (list Date))
  (unit : option TimeUnit) :
  let parsed := fst (parseRawWeatherData host raw) in
  let run := fst (debugWeatherDataPipeline host raw range unit) in
  (exists out, run = Ok out) /\
  (forall e,
      pipelineBody host parsed range (defaultUnit unit) = Throw e ->
      run = Ok []) /\
  (forall r, range = Some r -> In None r -> run = Ok []) /\
  (parsed = [] -> run = Ok []) /\
  (rangeStage parsed range = Ok [] -> run = Ok []) /\
  (forall filtered aggregated,
      parsed <> [] ->
      rangeStage parsed range = Ok filtered ->
      filtered <> [] ->
      aggregateByUnit host filtered (defaultUnit unit) = Ok aggregated ->
      (forall r, range = Some r -> (2 <= length r)%nat) ->
      run = Ok aggregated) /\
  (forall w h,
      hourly w = Some h -> hourly_time h = Some [] ->
      hourly_temperature_2m h = Some [] ->
      fst (debugWeatherDataPipeline host (Some w) None (Some Hour)) = Ok []) /\
  fst (debugWeatherDataPipeline host (Some emptyPayload) None (Some Hour))
  = Ok [].
Proof.
  intros parsed run.
  assert (Hrun : run = try_catch
                         (pipelineBody host parsed range (defaultUnit unit))
                         (fun _ => Ok [])).
  { subst run parsed. unfold debugWeatherDataPipeline, defaultUnit.
    destruct (parseRawWeatherData host raw) as [p raw1]. reflexivity. }
  assert (Hempty : parsed = [] -> run = Ok []).
  { intros E. rewrite Hrun. unfold pipelineBody. rewrite E. reflexivity. }
  assert (Hthrow : forall e,
             pipelineBody host parsed range (defaultUnit unit) = Throw e ->
             run = Ok []).
  { intros e He. rewrite Hrun, He. reflexivity. }
  split; [| split; [| split; [| split; [| split; [| split; [| split]]]]]].
  - rewrite Hrun.
    destruct (pipelineBody host parsed range (defaultUnit unit)); simpl; eauto.
  - exact Hthrow.
  - intros r -> Hnone.
    destruct parsed as [| pt rest] eqn:Ep; [apply Hempty; reflexivity |].
    apply (Hthrow RangeError). unfold pipelineBody. cbn [length Nat.eqb].
    rewrite (filterByRange_invalid _ _ Hnone). reflexivity.
  - exact Hempty.
  - intros Hstage. rewrite Hrun. unfold pipelineBody.
    destruct (length parsed =? 0)%nat; [reflexivity |].
    unfold rangeStage in Hstage. rewrite Hstage. reflexivity.
  - intros filtered aggregated Hp Hstage Hf Hagg Hlen.
    rewrite Hrun. unfold pipelineBody.
    rewrite (length_nonzero Hp).
    unfold rangeStage in Hstage. rewrite Hstage. cbn [bind].
    rewrite (length_nonzero Hf), Hagg. cbn [bind].
    destruct (length aggregated =? 0)%nat eqn:Ea.
    + apply length_zero_nil in Ea. subst aggregated. reflexivity.
    + destruct range as [r |]; [| reflexivity].
      pose proof (filterByRange_Ok_valid _ _ Hstage) as Hvalid.
      pose proof (Hlen r eq_refl) as H2.
      destruct (@isoStringAt_valid r 0 Hvalid ltac:(lia)) as [s0 ->].
      destruct (@isoStringAt_valid r 1 Hvalid ltac:(lia)) as [s1 ->].
      reflexivity.
  - intros w h Hh Ht Hv.
    unfold debugWeatherDataPipeline, parseRawWeatherData.
    rewrite Hh, Ht, Hv. reflexivity.
  - reflexivity.
Qed.

(* ===================================================================== *)
(** ** Part III. Further properties of the pipeline                        *)
(* ===================================================================== *)

(** *** filterByRange on valid bounds *)

Lemma filter_twice {A : Type} (p : A -> bool) (l : list A) :
  filter p (filter p l) = filter p l.
Proof.
  induction l as [| x l IH]; simpl; [reflexivity |].
  destruct (p x) eqn:E; simpl; [rewrite E, IH; reflexivity | exact IH].
Qed.

Lemma filter_both {A : Type} (p q : A -> bool) (l : list A) :
  filter q (filter p l) = filter (fun x => p x && q x) l.
Proof.
  induction l as [| x l IH]; simpl; [reflexivity |].
  destruct (p x); simpl; [destruct (q x); rewrite IH; reflexivity | exact IH].
Qed.

Lemma inRange_true (lo hi : Z) (pt : TimePoint) :
  inRange lo hi pt = true <-> exists t, time pt = Some t /\ lo <= t <= hi.
Proof.
  unfold inRange. destruct (time pt) as [t |].
  - rewrite andb_true_iff, Z.geb_le, Z.leb_le. split.
    + intros H. exists t. split; [reflexivity | lia].
    + intros [t' [E H]]. injection E as <-. lia.
  - split; [discriminate | intros [t [E _]]; discriminate].
Qed.

(** Two valid bounds in either order: the inclusive filter between the
    smaller and the larger. *)
Lemma filterByRange_bounds (series : list TimePoint) (a b : Z) :
  filterByRange series [Some a; Some b]
  = Ok (filter (inRange (Z.min a b) (Z.max a b)) series).
Proof.
  destruct (Z.le_gt_cases a b) as [Hle | Hgt].
  - rewrite Z.min_l, Z.max_r by lia. apply filterByRange_ordered. exact Hle.
  - rewrite Z.min_r, Z.max_l by lia. apply filterByRange_inverted. lia.
Qed.

Lemma range_valid_or_invalid (range : list Date) :
  Forall validDate range \/ In None range.
Proof.
  induction range as [| d range [IH | IH]].
  - left. constructor.
  - destruct d as [t |].
    + left. constructor; [discriminate | exact IH].
    + right. simpl; auto.
  - right. simpl; auto.
Qed.

(** X1.  For a range of valid dates [filterByRange] returns the series
    itself when the range does not have exactly two elements, and for two
    bounds, in either order and also when they coincide, exactly the samples
    whose time is valid and lies between the smaller and the larger bound,
    both included, in their input order. *)
Theorem filterByRange_valid_range (series : list TimePoint) :
  (forall range,
      Forall validDate range -> length range <> 2%nat ->
      filterByRange series range = Ok series) /\
  (forall a b,
      filterByRange series [Some a; Some b]
      = Ok (filter (inRange (Z.min a b) (Z.max a b)) series) /\
      (forall pt,
          In pt (filter (inRange (Z.min a b) (Z.max a b)) series) <->
          In pt series /\
          exists t, time pt = Some t /\ Z.min a b <= t <= Z.max a b)).
Proof.
  split.
  - intros range Hvalid Hlen. apply filterByRange_malformed; assumption.
  - intros a b. split; [apply filterByRange_bounds |].
    intros pt. rewrite filter_In, inRange_true. reflexivity.
Qed.

(** X2.  Filtering is idempotent: whatever a call returns, the same call on
    that output returns it again. *)
Theorem filterByRange_idempotent (series : list TimePoint) (range : list Date)
  (out : list TimePoint) :
  filterByRange series range = Ok out -> filterByRange out range = Ok out.
Proof.
  intros H.
  pose proof (filterByRange_Ok_valid _ _ H) as Hvalid.
  destruct (Nat.eq_dec (length range) 2) as [Hlen | Hlen].
  - destruct range as [| [a |] [| [b |] [| d range]]]; try discriminate;
      try (exfalso; inversion Hvalid as [| ? ? Ha Hrest]; subst;
           first [ apply Ha; reflexivity
                 | inversion Hrest as [| ? ? Hb _]; subst; apply Hb; reflexivity ]).
    rewrite filterByRange_bounds in H. injection H as <-.
    rewrite filterByRange_bounds, filter_twice. reflexivity.
  - rewrite filterByRange_malformed in H by assumption. injection H as <-.
    apply filterByRange_malformed; assumption.
Qed.

Definition threeSamples : list TimePoint :=
  [sampleAt 1 1; sampleAt 5 2; sampleAt 10 3].

Lemma filterByRange_idempotent_witness :
  filterByRange [sampleAt 5 2] [Some 7; Some 3] = Ok [sampleAt 5 2].
Proof.
  apply (@filterByRange_idempotent threeSamples [Some 7; Some 3] [sampleAt 5 2]).
  reflexivity.
Defined.

(** X3.  [filterByRange] throws exactly when its range holds an Invalid
    Date, whatever the series (the empty one included) and the length of the
    range, and what it throws is a RangeError. *)
Theorem filterByRange_throws_iff (series : list TimePoint) (range : list Date) :
  (In None range -> filterByRange series range = Throw RangeError) /\
  (forall e, filterByRange series range = Throw e ->
             e = RangeError /\ In None range).
Proof.
  split; [apply filterByRange_invalid |].
  intros e H. destruct (range_valid_or_invalid range) as [Hvalid | Hin].
  - destruct (filterByRange_total series Hvalid) as [out Hout].
    rewrite Hout in H. discriminate H.
  - rewrite (filterByRange_invalid series _ Hin) in H.
    injection H as <-. auto.
Qed.

(** X4.  Two range filters commute: filtering by one pair of valid bounds
    and then by another keeps the samples that lie in both windows, whichever
    filter runs first. *)
Theorem filterByRange_commute (series : list TimePoint) (a b c d : Z) :
  (out <- filterByRange series [Some a; Some b] ;;
   filterByRange out [Some c; Some d])
  = (out <- filterByRange series [Some c; Some d] ;;
     filterByRange out [Some a; Some b]) /\
  (out <- filterByRange series [Some a; Some b] ;;
   filterByRange out [Some c; Some d])
  = Ok (filter (fun pt => inRange (Z.min a b) (Z.max a b) pt &&
                          inRange (Z.min c d) (Z.max c d) pt) series).
Proof.
  rewrite !filterByRange_bounds. cbn [bind].
  rewrite !filterByRange_bounds, !filter_both.
  split; [| reflexivity].
  f_equal. apply filter_ext. intros pt. apply andb_comm.
Qed.

(** *** parseRawWeatherData: what comes out and what is left behind *)

Lemma keptPair_validSample (host : string -> Date) (p : string * jsval) :
  keptPair host p = true -> validSample (pointOfPair host p) = true.
Proof.
  unfold keptPair, validSample, pointOfPair. simpl.
  destruct (newDate host (fst p)); [| discriminate].
  rewrite andb_true_iff. intros [_ H]. exact H.
Qed.

(** The result of the call for every payload. *)
Lemma parseRawWeatherData_cases (host : string -> Date)
  (raw : option WeatherData) :
  parseRawWeatherData host raw = ([], raw) \/
  exists w h times temps,
    raw = Some w /\ hourly w = Some h /\ hourly_time h = Some times /\
    hourly_temperature_2m h = Some temps /\ times <> [] /\ temps <> [] /\
    parseRawWeatherData host raw =
    (map (pointOfPair host) (filter (keptPair host) (combine times temps)),
     Some (withHourlyArrays w
             (firstn (Nat.min (length times) (length temps)) times)
             (firstn (Nat.min (length times) (length temps)) temps))).
Proof.
  destruct raw as [w |]; [| left; reflexivity].
  destruct (hourly w) as [h |] eqn:Hh;
    [| left; unfold parseRawWeatherData; rewrite Hh; reflexivity].
  destruct (hourly_time h) as [times |] eqn:Ht;
    [| left; unfold parseRawWeatherData; rewrite Hh, Ht; reflexivity].
  destruct (hourly_temperature_2m h) as [temps |] eqn:Hv;
    [| left; unfold parseRawWeatherData; rewrite Hh, Ht, Hv; reflexivity].
  rewrite (parseRawWeatherData_arrays host _ Hh Ht Hv).
  destruct times as [| iso times]; [left; reflexivity |].
  destruct temps as [| v temps]; [left; reflexivity |].
  right. exists w, h, (iso :: times), (v :: temps).
  repeat (split; [first [reflexivity | assumption | discriminate] |]).
  change ((length (iso :: times) =? 0)%nat || (length (v :: temps) =? 0)%nat)
    with false.
  cbv zeta. f_equal.
  destruct (Nat.eqb_spec (length (iso :: times)) (length (v :: temps)))
    as [E | E]; [| reflexivity].
  rewrite !firstn_all2 by lia. reflexivity.
Qed.

(** X5.  Every sample [parseRawWeatherData] returns, for any payload, has a
    valid time and a temperature that is not NaN; so the day aggregation
    skips none of them. *)
Theorem parseRawWeatherData_samples_valid (host : string -> Date)
  (raw : option WeatherData) :
  Forall (fun pt => validSample pt = true) (fst (parseRawWeatherData host raw)) /\
  filter validSample (fst (parseRawWeatherData host raw))
  = fst (parseRawWeatherData host raw).
Proof.
  assert (H : Forall (fun pt => validSample pt = true)
                (fst (parseRawWeatherData host raw))).
  { destruct (parseRawWeatherData_cases host raw)
      as [-> | [w [h [times [temps [_ [_ [_ [_ [_ [_ ->]]]]]]]]]]];
      [constructor |].
    cbn [fst]. apply Forall_forall. intros pt Hin.
    apply in_map_iff in Hin. destruct Hin as [p [<- Hp]].
    apply filter_In in Hp. apply keptPair_validSample. apply Hp. }
  split; [exact H |].
  induction H as [| pt l Hpt _ IH]; simpl; [reflexivity |].
  rewrite Hpt, IH. reflexivity.
Qed.

(** X6.  The call never returns more samples than the shorter of the two
    arrays has elements. *)
Theorem parseRawWeatherData_length_bound (host : string -> Date)
  (w : WeatherData) (h : Hourly) (times : list string) (temps : list jsval) :
  hourly w = Some h -> hourly_time h = Some times ->
  hourly_temperature_2m h = Some temps ->
  (length (fst (parseRawWeatherData host (Some w)))
   <= Nat.min (length times) (length temps))%nat.
Proof.
  intros Hh Ht Hv. rewrite (parseRawWeatherData_result host _ Hh Ht Hv).
  rewrite length_map.
  eapply Nat.le_trans; [apply filter_length_le |].
  rewrite length_combine. apply Nat.le_refl.
Qed.

Lemma parseRawWeatherData_length_bound_witness :
  (length (fst (parseRawWeatherData standardFormatOnly
                  (Some (samplePayload threeTimes twoTemps))))
   <= Nat.min (length threeTimes) (length twoTemps))%nat.
Proof.
  apply (@parseRawWeatherData_length_bound standardFormatOnly
           (samplePayload threeTimes twoTemps)
           {| hourly_time := Some threeTimes;
              hourly_temperature_2m := Some twoTemps |}
           threeTimes twoTemps); reflexivity.
Defined.

(** X7.  What a call leaves in the payload: a second call on the payload
    left behind returns the same samples and changes nothing more; the
    payload stays absent when it was absent; and the fields outside [hourly]
    are never touched. *)
Theorem parseRawWeatherData_payload_settles (host : string -> Date)
  (raw : option WeatherData) :
  parseRawWeatherData host (snd (parseRawWeatherData host raw))
  = parseRawWeatherData host raw /\
  (raw = None -> snd (parseRawWeatherData host raw) = None) /\
  (forall w,
      raw = Some w ->
      exists w1,
        snd (parseRawWeatherData host raw) = Some w1 /\
        latitude w1 = latitude w /\ longitude w1 = longitude w /\
        generationtime_ms w1 = generationtime_ms w /\
        utc_offset_seconds w1 = utc_offset_seconds w /\
        timezone w1 = timezone w /\
        timezone_abbreviation w1 = timezone_abbreviation w /\
        elevation w1 = elevation w /\ hourly_units w1 = hourly_units w).
Proof.
  destruct (parseRawWeatherData_cases host raw)
    as [E | [w [h [times [temps [Hraw [Hh [Ht [Hv [Hts [Hvs E]]]]]]]]]]].
  - rewrite E. cbn [snd]. split; [exact E |]. split; [auto |].
    intros w ->. exists w. repeat split; reflexivity.
  - rewrite E. cbn [snd]. split; [| split].
    + set (m := Nat.min (length times) (length temps)).
      assert (Hm : (0 < m)%nat).
      { subst m. destruct times; [elim Hts; reflexivity |].
        destruct temps; [elim Hvs; reflexivity |]. simpl. lia. }
      rewrite (@parseRawWeatherData_arrays host
                 (withHourlyArrays w (firstn m times) (firstn m temps))
                 {| hourly_time := Some (firstn m times);
                    hourly_temperature_2m := Some (firstn m temps) |}
                 (firstn m times) (firstn m temps) eq_refl eq_refl eq_refl).
      assert (L1 : length (firstn m times) = m)
        by (rewrite length_firstn; subst m; lia).
      assert (L2 : length (firstn m temps) = m)
        by (rewrite length_firstn; subst m; lia).
      rewrite L1, L2, Nat.eqb_refl, Nat.min_id.
      destruct (Nat.eqb_spec m 0) as [E0 | _]; [lia |].
      cbn [orb]. cbv zeta.
      subst m. rewrite combine_truncated. reflexivity.
    + intros Hnone. rewrite Hnone in Hraw. discriminate Hraw.
    + intros w' Hw'. rewrite Hraw in Hw'. injection Hw' as <-.
      eexists. split; [reflexivity |]. repeat split; reflexivity.
Qed.

(** *** aggregateByUnit: failure, size, skipped samples *)

Lemma filterNotNull_length {A : Type} (l : list (option A)) :
  (length (filterNotNull l) <= length l)%nat.
Proof.
  induction l as [| [a |] l IH]; simpl; lia.
Qed.

Lemma distinct_length {A : Type} (eqb : A -> A -> bool) (l : list A) :
  (length (distinct eqb l) <= length l)%nat.
Proof.
  induction l as [| x l IH]; simpl; [lia |].
  pose proof (filter_length_le (fun y => negb (eqb y x)) (distinct eqb l)). lia.
Qed.

Lemma bucket_loop_other (unit : TimeUnit) (series : list TimePoint) :
  unit <> Day_ -> forall buckets,
    foldM (bucketStep unit) series buckets = Ok buckets.
Proof.
  intros Hu. induction series as [| pt series IH]; intros buckets; simpl;
    [reflexivity |].
  rewrite bucketStep_other by exact Hu. simpl. apply IH.
Qed.

(** X8.  [aggregateByUnit] never throws, for any series and any unit: the
    date it prints is always valid and the bucket it reads always exists.
    Its output is never longer than the series. *)
Theorem aggregateByUnit_never_throws (host : string -> Date)
  (series : list TimePoint) (unit : TimeUnit) :
  exists out,
    aggregateByUnit host series unit = Ok out /\
    (length out <= length series)%nat.
Proof.
  destruct unit as [| | name].
  - exists series. split; [destruct series; reflexivity | lia].
  - rewrite aggregateByUnit_Day_loop, bucket_loop. cbn [bind].
    eexists. split; [reflexivity |].
    rewrite (Permutation_length (sort_Permutation _ _)).
    eapply Nat.le_trans; [apply filterNotNull_length |].
    rewrite length_map. unfold bucketsOf. rewrite length_map.
    eapply Nat.le_trans; [apply distinct_length |].
    rewrite length_map. apply filter_length_le.
  - exists []. split; [| simpl; lia].
    destruct series as [| pt series]; [reflexivity |].
    unfold aggregateByUnit.
    rewrite bucket_loop_other by discriminate. reflexivity.
Qed.

(** X9.  A unit that is neither ["Hour"] nor ["Day"] makes the callback skip
    every sample: the result is the empty array, whatever the series. *)
Theorem aggregateByUnit_unknown_unit (host : string -> Date)
  (series : list TimePoint) (name : string) :
  aggregateByUnit host series (OtherUnit name) = Ok [].
Proof.
  destruct series as [| pt series]; [reflexivity |].
  unfold aggregateByUnit.
  rewrite bucket_loop_other by discriminate. reflexivity.
Qed.

(** X10.  With [Day] the samples the loop skips (invalid time or NaN
    temperature) have no influence: the result is the result for the series
    without them. *)
Theorem aggregateByUnit_Day_ignores_skipped (host : string -> Date)
  (series : list TimePoint) :
  aggregateByUnit host series Day_
  = aggregateByUnit host (filter validSample series) Day_.
Proof.
  rewrite !aggregateByUnit_Day_loop, !bucket_loop, filter_twice. reflexivity.
Qed.

Lemma bucketPoint_not_NaN (host : string -> Date) (entry : string * Bucket)
  (p : TimePoint) :
  bucketPoint host entry = Some p -> isNaN (temperature p) = false.
Proof.
  destruct entry as [key b]. unfold bucketPoint.
  destruct (isNaN (div (sum b) (count b))) eqn:E; [discriminate |].
  intros H. injection H as <-. exact E.
Qed.

(** X11.  The output of the day aggregation is itself made of samples the
    aggregator accepts: no output temperature is NaN, for any series; and
    for a series in the years 0000 to 9999 every output time is a valid date
    at midnight UTC. *)
Theorem aggregateByUnit_Day_output_valid (host : string -> Date)
  (series : list TimePoint) :
  exists out,
    aggregateByUnit host series Day_ = Ok out /\
    Forall (fun p => isNaN (temperature p) = false) out /\
    (fourDigitSeries series ->
     Forall (fun p => validSample p = true /\
                      exists t, time p = Some t /\ TimeWithinDay t = 0) out).
Proof.
  rewrite aggregateByUnit_Day_loop, bucket_loop. cbn [bind].
  eexists. split; [reflexivity |]. split.
  - eapply Permutation_Forall;
      [apply Permutation_sym, sort_Permutation |].
    apply Forall_forall. intros p Hp.
    apply filterNotNull_In, in_map_iff in Hp. destruct Hp as [entry [E _]].
    exact (bucketPoint_not_NaN _ _ E).
  - intros Hyears. rewrite (buckets_as_days host Hyears).
    eapply Permutation_Forall;
      [apply Permutation_sym, sort_Permutation |].
    apply Forall_forall. intros p Hp.
    apply (proj1 (dayPoints_In series p)) in Hp.
    destruct Hp as [d [_ [Hn ->]]].
    unfold validSample. cbn [time temperature]. rewrite Hn.
    split; [reflexivity |].
    exists (d * msPerDay). split; [reflexivity |].
    unfold TimeWithinDay. apply Z.mod_mul. discriminate.
Qed.

(** *** debugWeatherDataPipeline: how the stages compose *)

Lemma pipeline_run (host : string -> Date) (raw : option WeatherData)
  (range : option (list Date)) (unit : option TimeUnit) :
  fst (debugWeatherDataPipeline host raw range unit)
  = try_catch
      (pipelineBody host (fst (parseRawWeatherData host raw)) range
         (defaultUnit unit))
      (fun _ => Ok []).
Proof.
  unfold debugWeatherDataPipeline, defaultUnit.
  destruct (parseRawWeatherData host raw) as [parsed raw1]. reflexivity.
Qed.

Lemma pipelineBody_Hour (host : string -> Date) (parsed : list TimePoint)
  (range : option (list Date)) (filtered : list TimePoint) :
  rangeStage parsed range = Ok filtered ->
  (forall r, range = Some r -> (2 <= length r)%nat) ->
  pipelineBody host parsed range Hour = Ok filtered.
Proof.
  intros Hstage Hlen. unfold pipelineBody.
  destruct parsed as [| pt parsed].
  - destruct range as [r |]; simpl in Hstage.
    + destruct (filterByRange_Ok_cases _ _ Hstage) as [-> | [s [e ->]]];
        reflexivity.
    + injection Hstage as <-. reflexivity.
  - cbn [length Nat.eqb]. unfold rangeStage in Hstage. rewrite Hstage.
    cbn [bind].
    destruct filtered as [| q filtered]; [reflexivity |].
    cbn [length Nat.eqb aggregateByUnit bind].
    destruct range as [r |]; [| reflexivity].
    pose proof (filterByRange_Ok_valid _ _ Hstage) as Hvalid.
    pose proof (Hlen r eq_refl) as H2.
    destruct (@isoStringAt_valid r 0 Hvalid ltac:(lia)) as [s0 ->].
    destruct (@isoStringAt_valid r 1 Hvalid ltac:(lia)) as [s1 ->].
    reflexivity.
Qed.

(** X12.  With the unit ["Hour"], given or left out, the pipeline is the
    parser followed by the range filter: without a range it returns the
    parsed samples, and with two valid bounds, in either order, the parsed
    samples between them. *)
Theorem debugWeatherDataPipeline_Hour (host : string -> Date)
  (raw : option WeatherData) :
  let parsed := fst (parseRawWeatherData host raw) in
  fst (debugWeatherDataPipeline host raw None None) = Ok parsed /\
  fst (debugWeatherDataPipeline host raw None (Some Hour)) = Ok parsed /\
  (forall a b,
      fst (debugWeatherDataPipeline host raw (Some [Some a; Some b]) (Some Hour))
      = Ok (filter (inRange (Z.min a b) (Z.max a b)) parsed) /\
      fst (debugWeatherDataPipeline host raw (Some [Some a; Some b]) None)
      = Ok (filter (inRange (Z.min a b) (Z.max a b)) parsed)).
Proof.
  intros parsed.
  assert (Hnone : pipelineBody host parsed None Hour = Ok parsed)
    by (apply pipelineBody_Hour; [reflexivity | discriminate]).
  assert (Hsome : forall a b,
             pipelineBody host parsed (Some [Some a; Some b]) Hour
             = Ok (filter (inRange (Z.min a b) (Z.max a b)) parsed)).
  { intros a b. apply pipelineBody_Hour.
    - apply filterByRange_bounds.
    - intros r Hr. injection Hr as <-. simpl. lia. }
  rewrite !pipeline_run. fold parsed. cbn [defaultUnit].
  rewrite Hnone. split; [reflexivity |]. split; [reflexivity |].
  intros a b. rewrite !pipeline_run. fold parsed. cbn [defaultUnit].
  rewrite Hsome. split; reflexivity.
Qed.

(** X13.  A range with fewer than two dates always ends in the empty array,
    whatever the payload and the unit: an invalid date makes the filter
    throw, and otherwise the filter passes everything on and the closing log
    throws on the missing bound once there is something to report. *)
Theorem debugWeatherDataPipeline_short_range (host : string -> Date)
  (raw : option WeatherData) (r : list Date) (unit : option TimeUnit) :
  (length r < 2)%nat ->
  fst (debugWeatherDataPipeline host raw (Some r) unit) = Ok [].
Proof.
  intros Hlen. rewrite pipeline_run.
  set (parsed := fst (parseRawWeatherData host raw)).
  unfold pipelineBody.
  destruct parsed as [| pt parsed]; [reflexivity |].
  cbn [length Nat.eqb].
  destruct (range_valid_or_invalid r) as [Hvalid | Hin].
  - rewrite filterByRange_malformed by (try assumption; lia).
    cbn [bind length Nat.eqb].
    destruct (aggregateByUnit_total host (pt :: parsed) (defaultUnit unit))
      as [aggregated ->].
    cbn [bind].
    destruct (length aggregated =? 0)%nat; [reflexivity |].
    destruct r as [| d0 [| d1 r]]; [reflexivity | | simpl in Hlen; lia].
    unfold isoStringAt. cbn [nth_error].
    destruct (toISOString d0); reflexivity.
  - rewrite (filterByRange_invalid _ _ Hin). reflexivity.
Qed.

Lemma debugWeatherDataPipeline_short_range_witness :
  fst (debugWeatherDataPipeline standardFormatOnly
         (Some (samplePayload threeTimes twoTemps))
         (Some [Some 1752019200000]) (Some Hour)) = Ok [].
Proof.
  apply (@debugWeatherDataPipeline_short_range standardFormatOnly
           (Some (samplePayload threeTimes twoTemps))
           [Some 1752019200000] (Some Hour)).
  simpl. lia.
Defined.

(* ===================================================================== *)
(** ** Part IV. The other helpers and their callers                        *)
(* ===================================================================== *)

(** *** Comparisons of numbers *)

(** [x < y], [x <= y], [x > y], [x >= y]: false as soon as one side is
    NaN. *)
Definition num_ltb (x y : number) : bool := SFltb x y.
Definition num_leb (x y : number) : bool := SFleb x y.
Definition num_gtb (x y : number) : bool := SFltb y x.
Definition num_geb (x y : number) : bool := SFleb y x.

(** *** getColorForTemperature *)

(** The function exported by the weather helpers. *)
Definition getColorForTemperature (temp : number) : string :=
  if num_geb temp (ofZ 10) && num_leb temp (ofZ 15) then "#FF0000"
  else if num_gtb temp (ofZ 15) && num_leb temp (ofZ 25) then "#0000FF"
  else if num_gtb temp (ofZ 25) then "#00FF00"
  else "#888888".

(** The function of the same name local to the polygon sidebar. *)
Definition sidebarColorForTemperature (temp : number) : string :=
  if num_geb temp (ofZ 10) && num_leb temp (ofZ 15) then "#ff0000"
  else if num_gtb temp (ofZ 15) && num_leb temp (ofZ 25) then "#0000ff"
  else if num_gtb temp (ofZ 25) then "#00ff00"
  else "#808080".

Lemma Z_compare_cases (a b : Z) :
  ((a ?= b) = Eq /\ a = b) \/ ((a ?= b) = Lt /\ a < b) \/
  ((a ?= b) = Gt /\ b < a).
Proof.
  destruct (Z.compare_spec a b); auto.
Qed.

Lemma Pos_compare_cont_cases (a b : positive) :
  (Pos.compare_cont Eq a b = Eq /\ Z.pos a = Z.pos b) \/
  (Pos.compare_cont Eq a b = Lt /\ Z.pos a < Z.pos b) \/
  (Pos.compare_cont Eq a b = Gt /\ Z.pos b < Z.pos a).
Proof.
  change (Pos.compare_cont Eq a b) with (Pos.compare a b).
  destruct (Pos.compare_spec a b); subst; auto.
Qed.

(** One comparison of exponents or mantissas in the goal, split into its
    three outcomes; the impossible ones are closed at once. *)
Ltac case_compare :=
  match goal with
  | |- context [Z.compare ?a ?b] =>
      let E := fresh "E" in
      destruct (Z_compare_cases a b) as [[E ?] | [[E ?] | [E ?]]];
      rewrite E; clear E; try lia
  | |- context [PosDef.Pos.compare_cont Eq ?a ?b] =>
      let E := fresh "E" in
      destruct (Pos_compare_cont_cases a b) as [[E ?] | [[E ?] | [E ?]]];
      rewrite E; clear E; try lia
  end.

(** Case analysis on how a number stands to the constants 10, 15 and 25. *)
Ltac against_10_15_25 temp :=
  unfold num_geb, num_leb, num_gtb, num_ltb, SFleb, SFltb, isNaN;
  change (ofZ 10) with (S754_finite false 5629499534213120 (-49));
  change (ofZ 15) with (S754_finite false 8444249301319680 (-49));
  change (ofZ 25) with (S754_finite false 7036874417766400 (-48));
  destruct temp as [sg | sg | | sg m e]; try destruct sg; cbn [SFcompare];
  repeat case_compare; cbn [andb].

(** X14.  [getColorForTemperature] splits the numbers into four bands that
    leave nothing out: red exactly for [10 <= temp <= 15], blue exactly for
    [15 < temp <= 25], green exactly for [temp > 25] (Infinity
    included), and gray exactly for NaN and for every [temp < 10]. *)
Theorem getColorForTemperature_bands (temp : number) :
  (getColorForTemperature temp = "#FF0000"%string <->
   num_geb temp (ofZ 10) = true /\ num_leb temp (ofZ 15) = true) /\
  (getColorForTemperature temp = "#0000FF"%string <->
   num_gtb temp (ofZ 15) = true /\ num_leb temp (ofZ 25) = true) /\
  (getColorForTemperature temp = "#00FF00"%string <->
   num_gtb temp (ofZ 25) = true) /\
  (getColorForTemperature temp = "#888888"%string <->
   isNaN temp = true \/ num_ltb temp (ofZ 10) = true).
Proof.
  unfold getColorForTemperature.
  against_10_15_25 temp.
  all: (split; [| split; [| split]]); (split; intros Hc);
    first [ discriminate Hc
          | reflexivity
          | split; reflexivity
          | left; reflexivity
          | right; reflexivity
          | destruct Hc as [Hc1 Hc2]; first [discriminate Hc1 | discriminate Hc2]
          | destruct Hc as [Hc1 | Hc1]; discriminate Hc1 ].
Qed.

(** X15.  The exported colour function and the one local to the sidebar
    draw the same bands: two temperatures get one colour from the first
    exactly when they get one colour from the second.  Their colour strings
    differ for every temperature (upper against lower case, and two grays),
    so a colour of one never compares equal to a colour of the other. *)
Theorem color_functions_same_bands :
  (forall t1 t2,
      getColorForTemperature t1 = getColorForTemperature t2 <->
      sidebarColorForTemperature t1 = sidebarColorForTemperature t2) /\
  (forall t1 t2, getColorForTemperature t1 <> sidebarColorForTemperature t2).
Proof.
  unfold getColorForTemperature, sidebarColorForTemperature.
  split; intros t1 t2.
  - destruct (num_geb t1 (ofZ 10) && num_leb t1 (ofZ 15));
      destruct (num_gtb t1 (ofZ 15) && num_leb t1 (ofZ 25));
      destruct (num_gtb t1 (ofZ 25));
      destruct (num_geb t2 (ofZ 10) && num_leb t2 (ofZ 15));
      destruct (num_gtb t2 (ofZ 15) && num_leb t2 (ofZ 25));
      destruct (num_gtb t2 (ofZ 25));
      split; intros Hc; first [reflexivity | discriminate Hc].
  - destruct (num_geb t1 (ofZ 10) && num_leb t1 (ofZ 15));
      destruct (num_gtb t1 (ofZ 15) && num_leb t1 (ofZ 25));
      destruct (num_gtb t1 (ofZ 25));
      destruct (num_geb t2 (ofZ 10) && num_leb t2 (ofZ 15));
      destruct (num_gtb t2 (ofZ 15) && num_leb t2 (ofZ 25));
      destruct (num_gtb t2 (ofZ 25));
      intros Hc; discriminate Hc.
Qed.

(** *** validateWeatherData *)

#[local] Set Warnings "-register-all".

(** A value of unknown shape, as [JSON.parse] or a caller may hand it in. *)
Inductive dyn : Type :=
| DUndefined
| DNull
| DBool (b : bool)
| DNumber (x : number)
| DString (s : string)
| DArray (items : list dyn)
| DObject (fields : list (string * dyn)).

(** [!v] is false. *)
Definition truthy (v : dyn) : bool :=
  match v with
  | DUndefined | DNull => false
  | DBool b => b
  | DNumber x => negb (isNaN x || strict_eq x (ofZ 0))
  | DString s => negb (s =? "")%string
  | DArray _ | DObject _ => true
  end.

Fixpoint lookupField (fields : list (string * dyn)) (name : string) : dyn :=
  match fields with
  | [] => DUndefined
  | (k, v) :: rest => if (k =? name)%string then v else lookupField rest name
  end.

(** [v.name] for one of the names the validator reads: a TypeError on
    [undefined] and [null], [undefined] for a property that is not there. *)
Definition getProp (v : dyn) (name : string) : result dyn :=
  match v with
  | DUndefined | DNull => Throw TypeError
  | DObject fields => Ok (lookupField fields name)
  | DArray items =>
      if (name =? "length")%string then Ok (DNumber (lengthNumber items))
      else Ok DUndefined
  | DString s =>
      if (name =? "length")%string
      then Ok (DNumber (ofZ (Z.of_nat (String.length s))))
      else Ok DUndefined
  | DBool _ | DNumber _ => Ok DUndefined
  end.

(** [v[0]]. *)
Definition getFirst (v : dyn) : result dyn :=
  match v with
  | DUndefined | DNull => Throw TypeError
  | DArray (x :: _) => Ok x
  | DString (String c _) => Ok (DString (String c EmptyString))
  | _ => Ok DUndefined
  end.

Definition isArray (v : dyn) : bool :=
  match v with
  | DArray _ => true
  | _ => false
  end.

(** [data.hourly.name]. *)
Definition hourlyProp (data : dyn) (name : string) : result dyn :=
  h <- getProp data "hourly" ;; getProp h name.

Definition validateWeatherData (data : dyn) : result bool :=
  if negb (truthy data) then Ok false
  else
    h <- getProp data "hourly" ;;
    if negb (truthy h) then Ok false
    else
      t <- hourlyProp data "time" ;;
      if negb (isArray t) then Ok false
      else
        v <- hourlyProp data "temperature_2m" ;;
        if negb (isArray v) then Ok false
        else
          (* the length comparison only logs *)
          t1 <- hourlyProp data "time" ;;
          _ <- getProp t1 "length" ;;
          v1 <- hourlyProp data "temperature_2m" ;;
          _ <- getProp v1 "length" ;;
          (* the closing log *)
          _ <- getFirst t1 ;;
          _ <- getFirst v1 ;;
          Ok true.

(** The typed payload seen as such a value. *)
Definition dynOfJsval (v : jsval) : dyn :=
  match v with
  | JUndefined => DUndefined
  | JNull => DNull
  | JBool b => DBool b
  | JNumber x => DNumber x
  | JString s => DString s
  end.

Definition dynOfOption {A : Type} (f : A -> dyn) (o : option A) : dyn :=
  match o with
  | Some a => f a
  | None => DUndefined
  end.

Definition dynOfHourly (h : Hourly) : dyn :=
  DObject
    [("time"%string,
      dynOfOption (fun ts => DArray (map DString ts)) (hourly_time h));
     ("temperature_2m"%string,
      dynOfOption (fun vs => DArray (map dynOfJsval vs))
        (hourly_temperature_2m h))].

Definition dynOfPayload (raw : option WeatherData) : dyn :=
  dynOfOption
    (fun w =>
       DObject
         [("latitude"%string, DNumber (latitude w));
          ("longitude"%string, DNumber (longitude w));
          ("generationtime_ms"%string, DNumber (generationtime_ms w));
          ("utc_offset_seconds"%string, DNumber (utc_offset_seconds w));
          ("timezone"%string, DString (timezone w));
          ("timezone_abbreviation"%string, DString (timezone_abbreviation w));
          ("elevation"%string, DNumber (elevation w));
          ("hourly_units"%string,
           DObject
             [("time"%string, DString (units_time (hourly_units w)));
              ("temperature_2m"%string,
               DString (units_temperature_2m (hourly_units w)))]);
          ("hourly"%string, dynOfOption dynOfHourly (hourly w))])
    raw.

(** Reading a property of a value that is not [undefined] or [null] does
    not throw. *)
Lemma getProp_truthy (v : dyn) (name : string) :
  truthy v = true -> exists r, getProp v name = Ok r.
Proof.
  destruct v; simpl; try discriminate; intros _; eauto;
    destruct (name =? "length")%string; eauto.
Qed.

(** X16.  [validateWeatherData] never throws, whatever value it is given:
    each guard makes the next property access safe.  It answers [true]
    exactly when the value and its [hourly] property are truthy and
    [hourly.time] and [hourly.temperature_2m] are both arrays; the lengths
    and the elements of the arrays play no part. *)
Theorem validateWeatherData_never_throws (data : dyn) :
  (exists b, validateWeatherData data = Ok b) /\
  (validateWeatherData data = Ok true <->
   truthy data = true /\
   exists h times temps,
     getProp data "hourly" = Ok h /\ truthy h = true /\
     getProp h "time" = Ok (DArray times) /\
     getProp h "temperature_2m" = Ok (DArray temps)).
Proof.
  unfold validateWeatherData, hourlyProp.
  destruct (truthy data) eqn:Td; cbn [negb].
  2: { split; [eauto |]. split; [discriminate | intros [H _]; discriminate H]. }
  destruct (getProp_truthy data "hourly" Td) as [h Hh]. rewrite Hh. cbn [bind].
  destruct (truthy h) eqn:Th; cbn [negb].
  2: { split; [eauto |]. split; [discriminate |].
       intros [_ [h' [ts [vs [E [T _]]]]]]. injection E as <-. congruence. }
  destruct (getProp_truthy h "time" Th) as [t Ht]. rewrite Ht. cbn [bind].
  destruct t as [| | b | x | s | times | fields]; cbn [isArray negb];
    try (split; [eauto |]; split; [discriminate |];
         intros [_ [h' [ts [vs [E [_ [E1 _]]]]]]]; injection E as <-;
         rewrite Ht in E1; discriminate E1).
  destruct (getProp_truthy h "temperature_2m" Th) as [v Hv]. rewrite Hv.
  cbn [bind].
  destruct v as [| | b | x | s | temps | fields]; cbn [isArray negb];
    try (split; [eauto |]; split; [discriminate |];
         intros [_ [h' [ts [vs [E [_ [_ E2]]]]]]]; injection E as <-;
         rewrite Hv in E2; discriminate E2).
  assert (Htrue : forall k : result bool, k = Ok true ->
                    (exists b, k = Ok b) /\
                    (k = Ok true <->
                     true = true /\
                     exists h0 ts vs,
                       Ok h = Ok h0 /\ truthy h0 = true /\
                       getProp h0 "time" = Ok (DArray ts) /\
                       getProp h0 "temperature_2m" = Ok (DArray vs))).
  { intros k ->. split; [eauto |]. split; [| reflexivity].
    intros _. split; [reflexivity |]. exists h, times, temps. auto. }
  apply Htrue. simpl. destruct times; destruct temps; reflexivity.
Qed.

(** The payloads that hold both arrays. *)
Definition hasBothArrays (raw : option WeatherData) : bool :=
  match raw with
  | Some w =>
      match hourly w with
      | Some h =>
          match hourly_time h, hourly_temperature_2m h with
          | Some _, Some _ => true
          | _, _ => false
          end
      | None => false
      end
  | None => false
  end.

(** X17.  On a typed payload the validator answers [true] exactly when both
    arrays are present, also when their lengths differ or both are empty;
    and whenever it answers [false] the parser returns the empty array. *)
Theorem validateWeatherData_payload (host : string -> Date)
  (raw : option WeatherData) :
  validateWeatherData (dynOfPayload raw) = Ok (hasBothArrays raw) /\
  (hasBothArrays raw = false -> fst (parseRawWeatherData host raw) = []) /\
  (forall w times temps,
      validateWeatherData (dynOfPayload (Some (withHourlyArrays w times temps)))
      = Ok true).
Proof.
  assert (Hboth : forall w times temps,
             validateWeatherData
               (dynOfPayload (Some (withHourlyArrays w times temps)))
             = Ok true).
  { intros w times temps. unfold validateWeatherData, hourlyProp. simpl.
    destruct times; destruct temps; reflexivity. }
  split; [| split; [| exact Hboth]].
  - destruct raw as [w |]; [| reflexivity].
    destruct (hourly w) as [h |] eqn:Hh.
    + destruct (hourly_time h) as [times |] eqn:Ht.
      * destruct (hourly_temperature_2m h) as [temps |] eqn:Hv.
        -- rewrite <- (withHourlyArrays_same w Hh Ht Hv) at 1.
           rewrite Hboth. unfold hasBothArrays. rewrite Hh, Ht, Hv. reflexivity.
        -- unfold hasBothArrays, validateWeatherData, hourlyProp. simpl.
           rewrite Hh. simpl. rewrite Ht, Hv. simpl.
           reflexivity.
      * unfold hasBothArrays, validateWeatherData, hourlyProp. simpl.
        rewrite Hh. simpl. rewrite Ht. reflexivity.
    + unfold hasBothArrays, validateWeatherData, hourlyProp. simpl.
      rewrite Hh. reflexivity.
  - destruct (parseRawWeatherData_cases host raw)
      as [-> | [w [h [times [temps [-> [Hh [Ht [Hv _]]]]]]]]]; [reflexivity |].
    unfold hasBothArrays. rewrite Hh, Ht, Hv. discriminate.
Qed.

(** *** Integers in binary64 *)

(** [Math.abs]. *)
Definition num_abs (x : number) : number := SFabs x.

Lemma digits2_pos_size (p : positive) : digits2_pos p = Pos.size p.
Proof.
  induction p as [p IH | p IH |]; simpl; congruence.
Qed.

Lemma iter_pos_nat {A : Type} (f : A -> A) (p : positive) (x : A) :
  iter_pos f p x = Nat.iter (Pos.to_nat p) f x.
Proof.
  revert x. induction p as [p IH | p IH |]; intros x; simpl iter_pos.
  - rewrite !IH, Pos2Nat.inj_xI.
    replace (S (2 * Pos.to_nat p)) with (Pos.to_nat p + Pos.to_nat p + 1)%nat
      by lia.
    rewrite !Nat.iter_add. reflexivity.
  - rewrite !IH, Pos2Nat.inj_xO.
    replace (2 * Pos.to_nat p)%nat with (Pos.to_nat p + Pos.to_nat p)%nat
      by lia.
    rewrite Nat.iter_add. reflexivity.
  - reflexivity.
Qed.

(** Shifting a mantissa left by [d] bits. *)
Lemma iter_xO_value (m d : positive) :
  Z.pos (Pos.iter xO m d) = Z.pos m * 2 ^ Z.pos d.
Proof.
  change (Pos.iter xO m d) with (shift_pos d m).
  rewrite shift_pos_correct, Z.pow_pos_fold. apply Z.mul_comm.
Qed.

Lemma size_bounds (p : positive) :
  2 ^ (Z.pos (Pos.size p) - 1) <= Z.pos p < 2 ^ Z.pos (Pos.size p).
Proof.
  pose proof (Pos.size_gt p) as Hgt. pose proof (Pos.size_le p) as Hle.
  apply Pos2Z.pos_lt_pos in Hgt. apply Pos2Z.pos_le_pos in Hle.
  rewrite Pos2Z.inj_pow in Hgt, Hle.
  change (Z.pos p~0) with (2 * Z.pos p) in Hle.
  replace (Z.pos (Pos.size p)) with (Z.succ (Z.pos (Pos.size p) - 1)) in Hle
    by lia.
  rewrite Z.pow_succ_r in Hle by lia.
  split; lia.
Qed.

(** The size of a positive number is fixed by the powers of two around
    it. *)
Lemma size_unique (p : positive) (k : Z) :
  2 ^ (k - 1) <= Z.pos p < 2 ^ k -> Z.pos (Pos.size p) = k.
Proof.
  intros [Hlo Hhi]. destruct (size_bounds p) as [Slo Shi].
  assert (Hk : 0 < k).
  { destruct (Z.lt_ge_cases 0 k) as [|Hneg]; [assumption |].
    destruct (Z.eq_dec k 0) as [-> | Hne]; [simpl in Hhi; lia |].
    rewrite Z.pow_neg_r in Hhi by lia. lia. }
  destruct (Z.lt_trichotomy (Z.pos (Pos.size p)) k) as [Hlt | [Heq | Hgt]];
    [| exact Heq |].
  - assert (2 ^ Z.pos (Pos.size p) <= 2 ^ (k - 1))
      by (apply Z.pow_le_mono_r; lia).
    lia.
  - assert (2 ^ k <= 2 ^ (Z.pos (Pos.size p) - 1))
      by (apply Z.pow_le_mono_r; lia).
    lia.
Qed.

Lemma size_shift (x m : positive) (d : Z) :
  0 <= d -> Z.pos x = Z.pos m * 2 ^ d ->
  Z.pos (Pos.size x) = Z.pos (Pos.size m) + d.
Proof.
  intros Hd Hx. apply size_unique. rewrite Hx.
  destruct (size_bounds m) as [Slo Shi].
  assert (P : 0 < 2 ^ d) by (apply Z.pow_pos_nonneg; lia).
  replace (Z.pos (Pos.size m) + d - 1) with (Z.pos (Pos.size m) - 1 + d) by lia.
  rewrite !Z.pow_add_r by lia. split; nia.
Qed.

(** A mantissa that already has the exponent of its magnitude is left as it
    is. *)
Lemma binary_round_aux_canonical (s : bool) (m : positive) (e : Z) :
  fexp prec emax (Z.pos (digits2_pos m) + e) = e -> e <= emax - prec ->
  binary_round_aux prec emax s (Z.pos m) e loc_Exact = S754_finite s m e.
Proof.
  intros Hc He. unfold binary_round_aux, shr_fexp.
  cbn [Zdigits2 shr_record_of_loc]. rewrite Hc, Z.sub_diag.
  cbn [shr shr_m loc_of_shr_record round_nearest_even Zdigits2
       shr_record_of_loc].
  rewrite Hc, Z.sub_diag. cbn [shr shr_m].
  apply Z.leb_le in He. rewrite He. reflexivity.
Qed.

Lemma shr_exact (n : nat) (m : positive) :
  Nat.iter n shr_1
    {| shr_m := Z.pos (Nat.iter n xO m); shr_r := false; shr_s := false |}
  = {| shr_m := Z.pos m; shr_r := false; shr_s := false |}.
Proof.
  induction n as [| n IH]; [reflexivity |].
  rewrite Nat.iter_succ_r. rewrite Nat.iter_succ. cbn [shr_1 orb]. exact IH.
Qed.

Lemma shr_exact_pos (n m : positive) :
  iter_pos shr_1 n
    {| shr_m := Z.pos (Pos.iter xO m n); shr_r := false; shr_s := false |}
  = {| shr_m := Z.pos m; shr_r := false; shr_s := false |}.
Proof.
  rewrite iter_pos_nat.
  replace (Pos.iter xO m n) with (Nat.iter (Pos.to_nat n) xO m)
    by (symmetry; apply Pos2Nat.inj_iter).
  apply shr_exact.
Qed.

Lemma binary_round_aux_shr (s : bool) (m : positive) (e : Z) (n : positive) :
  fexp prec emax (Z.pos (digits2_pos (Pos.iter xO m n)) + e) = e + Z.pos n ->
  e + Z.pos n <= emax - prec ->
  binary_round_aux prec emax s (Z.pos (Pos.iter xO m n)) e loc_Exact
  = S754_finite s m (e + Z.pos n).
Proof.
  intros Hc He. unfold binary_round_aux, shr_fexp.
  cbn [Zdigits2 shr_record_of_loc]. rewrite Hc.
  replace (e + Z.pos n - e) with (Z.pos n) by lia.
  cbn [shr]. rewrite shr_exact_pos.
  cbn [shr_m loc_of_shr_record round_nearest_even Zdigits2 shr_record_of_loc].
  assert (Hc' : fexp prec emax (Z.pos (digits2_pos m) + (e + Z.pos n))
                = e + Z.pos n).
  { assert (Hs : Z.pos (digits2_pos m) + (e + Z.pos n)
                 = Z.pos (digits2_pos (Pos.iter xO m n)) + e).
    { rewrite (digits2_pos_size m), (digits2_pos_size (Pos.iter xO m n)).
      rewrite (@size_shift (Pos.iter xO m n) m (Z.pos n));
        [lia | lia | apply iter_xO_value]. }
    rewrite Hs. exact Hc. }
  rewrite Hc', Z.sub_diag. cbn [shr shr_m].
  apply Z.leb_le in He. rewrite He. reflexivity.
Qed.

(** Rounding a number that fits: [m * 2^e] is [m' * 2^E], with [E] the
    exponent of its magnitude; nothing is lost. *)
Lemma binary_round_exact (s : bool) (m m' : positive) (e B : Z) :
  let E := fexp prec emax (Z.pos (digits2_pos m) + e) in
  E <= emax - prec -> B <= e -> B <= E ->
  Z.pos m * 2 ^ (e - B) = Z.pos m' * 2 ^ (E - B) ->
  binary_round prec emax s m e = S754_finite s m' E.
Proof.
  intros E HE HBe HBE Hv. unfold binary_round, shl_align. fold E.
  assert (P : 0 < 2 ^ (E - B)) by (apply Z.pow_pos_nonneg; lia).
  destruct (E - e) as [| n | d] eqn:Ed.
  - assert (E = e) by lia.
    replace (e - B) with (E - B) in Hv by lia.
    assert (m = m') by nia. subst m'.
    replace e with E by lia.
    apply binary_round_aux_canonical; [| exact HE].
    subst E. congruence.
  - assert (e = E - Z.pos n) by lia.
    replace (E - B) with (e - B + Z.pos n) in Hv by lia.
    rewrite Z.pow_add_r in Hv by lia.
    assert (Q : 0 < 2 ^ (e - B)) by (apply Z.pow_pos_nonneg; lia).
    assert (Hm : Z.pos m = Z.pos (Pos.iter xO m' n))
      by (rewrite iter_xO_value; nia).
    injection Hm as ->.
    replace E with (e + Z.pos n) by lia.
    apply binary_round_aux_shr; [| lia].
    subst E. lia.
  - assert (e = E + Z.pos d) by lia.
    replace (e - B) with (E - B + Z.pos d) in Hv by lia.
    rewrite Z.pow_add_r in Hv by lia.
    assert (Hm : Z.pos m' = Z.pos (Pos.iter xO m d))
      by (rewrite iter_xO_value; nia).
    injection Hm as ->.
    apply binary_round_aux_canonical; [| exact HE].
    replace (Z.pos (digits2_pos (Pos.iter xO m d)) + E)
      with (Z.pos (digits2_pos m) + e); [reflexivity |].
    rewrite (digits2_pos_size m), (digits2_pos_size (Pos.iter xO m d)).
    rewrite (@size_shift (Pos.iter xO m d) m (Z.pos d));
      [lia | lia | apply iter_xO_value].
Qed.

(** The exponent and the mantissa of a positive integer below [2^53]: its
    53 bits are those of [p] followed by zeros. *)
Definition intExponent (p : positive) : Z := Z.pos (Pos.size p) - 53.

Definition intMantissa (p : positive) : positive :=
  Z.to_pos (Z.pos p * 2 ^ (53 - Z.pos (Pos.size p))).

Lemma size_small (p : positive) :
  Z.pos p < 2 ^ 53 -> Z.pos (Pos.size p) <= 53.
Proof.
  intros H. destruct (size_bounds p) as [Slo _].
  destruct (Z.le_gt_cases (Z.pos (Pos.size p)) 53) as [| Hgt]; [assumption |].
  assert (2 ^ 53 <= 2 ^ (Z.pos (Pos.size p) - 1))
    by (apply Z.pow_le_mono_r; lia).
  lia.
Qed.

Lemma intMantissa_value (p : positive) :
  Z.pos p < 2 ^ 53 ->
  Z.pos (intMantissa p) = Z.pos p * 2 ^ (53 - Z.pos (Pos.size p)).
Proof.
  intros H. pose proof (size_small H) as Hs. unfold intMantissa.
  apply Z2Pos.id.
  assert (0 < 2 ^ (53 - Z.pos (Pos.size p))) by (apply Z.pow_pos_nonneg; lia).
  nia.
Qed.

(** Rounding [p * 2^k * 2^(-k)]. *)
Lemma binary_round_integer (s : bool) (p q : positive) (k : Z) :
  0 <= k -> Z.pos q = Z.pos p * 2 ^ k -> Z.pos p < 2 ^ 53 ->
  binary_round prec emax s q (- k)
  = S754_finite s (intMantissa p) (intExponent p).
Proof.
  intros Hk Hq Hp. pose proof (size_small Hp) as Hs.
  assert (HE : fexp prec emax (Z.pos (digits2_pos q) + - k) = intExponent p).
  { rewrite digits2_pos_size, (@size_shift q p k Hk Hq).
    unfold fexp, emin, prec, emax, intExponent. lia. }
  rewrite <- HE.
  apply binary_round_exact with (B := - k - 53).
  - rewrite HE. unfold intExponent, emax, prec. lia.
  - lia.
  - rewrite HE. unfold intExponent. lia.
  - rewrite HE, Hq, (intMantissa_value Hp). unfold intExponent.
    replace (- k - (- k - 53)) with 53 by lia.
    replace (Z.pos (Pos.size p) - 53 - (- k - 53))
      with (Z.pos (Pos.size p) + k) by lia.
    rewrite <- !Z.mul_assoc, <- !Z.pow_add_r by lia.
    f_equal. f_equal. lia.
Qed.

Lemma ofZ_pos (p : positive) :
  Z.pos p < 2 ^ 53 ->
  ofZ (Z.pos p) = S754_finite false (intMantissa p) (intExponent p).
Proof.
  intros Hp. unfold ofZ, binary_normalize.
  apply (@binary_round_integer false p p 0); [lia | | exact Hp].
  rewrite Z.pow_0_r. lia.
Qed.

Lemma ofZ_neg (p : positive) :
  Z.pos p < 2 ^ 53 ->
  ofZ (Z.neg p) = S754_finite true (intMantissa p) (intExponent p).
Proof.
  intros Hp. unfold ofZ, binary_normalize.
  apply (@binary_round_integer true p p 0); [lia | | exact Hp].
  rewrite Z.pow_0_r. lia.
Qed.

(** An integer below [2^53] in magnitude, given with [k] more bits. *)
Lemma binary_normalize_integer (c M k : Z) :
  0 <= k -> M = c * 2 ^ k -> Z.abs c < 2 ^ 53 ->
  binary_normalize prec emax M (- k) false = ofZ c.
Proof.
  intros Hk HM Hc.
  assert (P : 0 < 2 ^ k) by (apply Z.pow_pos_nonneg; lia).
  destruct c as [| p | p].
  - subst M. reflexivity.
  - destruct M as [| q | q]; try nia.
    rewrite (ofZ_pos Hc). cbn [binary_normalize].
    apply binary_round_integer; assumption.
  - destruct M as [| q | q]; try nia.
    rewrite (@ofZ_neg p Hc). cbn [binary_normalize].
    apply binary_round_integer; [assumption | | exact Hc].
    change (Z.neg q) with (- Z.pos q) in HM.
    change (Z.neg p) with (- Z.pos p) in HM. lia.
Qed.

Lemma shl_align_value (m : positive) (e e' : Z) :
  e' <= e -> Z.pos (fst (shl_align m e e')) = Z.pos m * 2 ^ (e - e').
Proof.
  intros H. unfold shl_align.
  destruct (e' - e) as [| n | d] eqn:E; cbn [fst].
  - replace (e - e') with 0 by lia. rewrite Z.pow_0_r. lia.
  - lia.
  - rewrite iter_xO_value. f_equal. f_equal. lia.
Qed.

(** The aligned mantissa of an integer: the integer with [-ez] more bits. *)
Lemma aligned_integer (p : positive) (ez : Z) :
  Z.pos p < 2 ^ 53 -> ez <= intExponent p ->
  Z.pos (fst (shl_align (intMantissa p) (intExponent p) ez))
  = Z.pos p * 2 ^ (- ez).
Proof.
  intros Hp Hez. pose proof (size_small Hp) as Hs.
  rewrite (shl_align_value _ Hez), (intMantissa_value Hp).
  unfold intExponent in *.
  rewrite <- Z.mul_assoc, <- Z.pow_add_r by lia.
  f_equal. f_equal. lia.
Qed.

(** Subtraction of integers is exact as long as the difference stays below
    [2^53] in magnitude. *)
Lemma sub_ofZ (a b : Z) :
  Z.abs a < 2 ^ 53 -> Z.abs b < 2 ^ 53 -> Z.abs (a - b) < 2 ^ 53 ->
  sub (ofZ a) (ofZ b) = ofZ (a - b).
Proof.
  intros Ha Hb Hc.
  assert (Hfin : forall sa sb (pa pb : positive),
             Z.pos pa < 2 ^ 53 -> Z.pos pb < 2 ^ 53 ->
             Z.abs (cond_Zopp sa (Z.pos pa) - cond_Zopp sb (Z.pos pb)) < 2 ^ 53 ->
             sub (S754_finite sa (intMantissa pa) (intExponent pa))
                 (S754_finite sb (intMantissa pb) (intExponent pb))
             = ofZ (cond_Zopp sa (Z.pos pa) - cond_Zopp sb (Z.pos pb))).
  { intros sa sb pa pb Hpa Hpb Hd. unfold sub, SFsub.
    set (ez := Z.min (intExponent pa) (intExponent pb)).
    pose proof (size_small Hpa). pose proof (size_small Hpb).
    assert (Hez : ez <= 0) by (unfold ez, intExponent; lia).
    rewrite (@aligned_integer pa ez Hpa) by (unfold ez; lia).
    rewrite (@aligned_integer pb ez Hpb) by (unfold ez; lia).
    replace ez with (- - ez) at 3 by lia.
    apply binary_normalize_integer; [lia | | exact Hd].
    destruct sa, sb; cbn [cond_Zopp]; ring. }
  destruct a as [| pa | pa], b as [| pb | pb].
  - reflexivity.
  - rewrite (ofZ_pos Hb). change (0 - Z.pos pb) with (Z.neg pb).
    rewrite (@ofZ_neg pb Hb). reflexivity.
  - rewrite (@ofZ_neg pb Hb). change (0 - Z.neg pb) with (Z.pos pb).
    rewrite (ofZ_pos Hb). reflexivity.
  - rewrite Z.sub_0_r. rewrite (ofZ_pos Ha). reflexivity.
  - rewrite (ofZ_pos Ha), (ofZ_pos Hb).
    apply (Hfin false false pa pb Ha Hb Hc).
  - rewrite (ofZ_pos Ha), (@ofZ_neg pb Hb).
    apply (Hfin false true pa pb Ha Hb Hc).
  - rewrite Z.sub_0_r. rewrite (@ofZ_neg pa Ha). reflexivity.
  - rewrite (@ofZ_neg pa Ha), (ofZ_pos Hb).
    apply (Hfin true false pa pb Ha Hb Hc).
  - rewrite (@ofZ_neg pa Ha), (@ofZ_neg pb Hb).
    apply (Hfin true true pa pb Ha Hb Hc).
Qed.

Lemma abs_ofZ (c : Z) :
  Z.abs c < 2 ^ 53 -> num_abs (ofZ c) = ofZ (Z.abs c).
Proof.
  intros Hc. destruct c as [| p | p].
  - reflexivity.
  - change (Z.abs (Z.pos p)) with (Z.pos p). rewrite (ofZ_pos Hc). reflexivity.
  - change (Z.abs (Z.neg p)) with (Z.pos p).
    rewrite (@ofZ_neg p Hc), (ofZ_pos Hc). reflexivity.
Qed.

(** The order of numbers is the order of the integers they stand for. *)
Lemma ltb_ofZ (x y : Z) :
  0 <= x < 2 ^ 53 -> 0 <= y < 2 ^ 53 ->
  num_ltb (ofZ x) (ofZ y) = (x <? y).
Proof.
  intros Hx Hy. destruct x as [| p | p], y as [| q | q]; try lia.
  - reflexivity.
  - rewrite (@ofZ_pos q) by lia. reflexivity.
  - rewrite (@ofZ_pos p) by lia. reflexivity.
  - assert (Hp : Z.pos p < 2 ^ 53) by lia.
    assert (Hq : Z.pos q < 2 ^ 53) by lia.
    rewrite (ofZ_pos Hp), (ofZ_pos Hq).
    unfold num_ltb, SFltb, SFcompare.
    destruct (size_bounds p) as [Plo Phi].
    destruct (size_bounds q) as [Qlo Qhi].
    pose proof (size_small Hp) as Sp. pose proof (size_small Hq) as Sq.
    unfold intExponent.
    destruct (Z.compare_spec (Z.pos (Pos.size p) - 53) (Z.pos (Pos.size q) - 53))
      as [Heq | Hlt | Hgt].
    + change (Pos.compare_cont Eq (intMantissa p) (intMantissa q))
        with (Pos.compare (intMantissa p) (intMantissa q)).
      rewrite Pos2Z.inj_compare.
      rewrite (intMantissa_value Hp), (intMantissa_value Hq).
      replace (Z.pos (Pos.size q)) with (Z.pos (Pos.size p)) by lia.
      assert (P : 0 < 2 ^ (53 - Z.pos (Pos.size p)))
        by (apply Z.pow_pos_nonneg; lia).
      destruct (Z.compare_spec (Z.pos p * 2 ^ (53 - Z.pos (Pos.size p)))
                  (Z.pos q * 2 ^ (53 - Z.pos (Pos.size p))));
        symmetry; [apply Z.ltb_ge | apply Z.ltb_lt | apply Z.ltb_ge]; nia.
    + symmetry. apply Z.ltb_lt.
      assert (2 ^ Z.pos (Pos.size p) <= 2 ^ (Z.pos (Pos.size q) - 1))
        by (apply Z.pow_le_mono_r; lia).
      lia.
    + symmetry. apply Z.ltb_ge.
      assert (2 ^ Z.pos (Pos.size q) <= 2 ^ (Z.pos (Pos.size p) - 1))
        by (apply Z.pow_le_mono_r; lia).
      lia.
Qed.

Lemma isNaN_ofZ (c : Z) : Z.abs c < 2 ^ 53 -> isNaN (ofZ c) = false.
Proof.
  intros Hc. destruct c as [| p | p].
  - reflexivity.
  - rewrite (ofZ_pos Hc). reflexivity.
  - rewrite (@ofZ_neg p Hc). reflexivity.
Qed.

(** *** The order of numbers *)

(** The place of a number in the order of [<]: its sign class, then its
    exponent and mantissa, both negated below zero.  NaN has no place. *)
Definition orderKey (x : number) : option (Z * Z * Z) :=
  match x with
  | S754_nan => None
  | S754_infinity true => Some (-2, 0, 0)
  | S754_infinity false => Some (2, 0, 0)
  | S754_zero _ => Some (0, 0, 0)
  | S754_finite true m e => Some (-1, - e, - Z.pos m)
  | S754_finite false m e => Some (1, e, Z.pos m)
  end.

Definition keyLt (a b : Z * Z * Z) : Prop :=
  let '(a1, a2, a3) := a in
  let '(b1, b2, b3) := b in
  a1 < b1 \/ (a1 = b1 /\ (a2 < b2 \/ (a2 = b2 /\ a3 < b3))).

Lemma orderKey_isNaN (x : number) :
  isNaN x = false -> exists a, orderKey x = Some a.
Proof.
  destruct x as [[] | [] | | [] m e]; intros H; try discriminate H;
    eexists; reflexivity.
Qed.

Lemma num_ltb_keyLt (x y : number) (a b : Z * Z * Z) :
  orderKey x = Some a -> orderKey y = Some b ->
  (num_ltb x y = true <-> keyLt a b).
Proof.
  unfold num_ltb, SFltb, SFcompare, keyLt.
  destruct x as [[] | [] | | [] mx ex], y as [[] | [] | | [] my ey];
    cbn [orderKey]; intros Ha Hb; try discriminate Ha; try discriminate Hb;
    injection Ha as <-; injection Hb as <-;
    try (split; [intros H; try discriminate H; lia
                | intros H; try reflexivity; lia]).
  - change (Pos.compare_cont Eq mx my) with (Pos.compare mx my).
    destruct (Z.compare_spec ex ey) as [He | He | He];
      [destruct (Pos.compare_spec mx my) as [Hm | Hm | Hm] | |];
      cbn [CompOpp];
      (split; [intros Hc; try discriminate Hc; lia
              | intros Hc; try reflexivity; lia]).
  - change (Pos.compare_cont Eq mx my) with (Pos.compare mx my).
    destruct (Z.compare_spec ex ey) as [He | He | He];
      [destruct (Pos.compare_spec mx my) as [Hm | Hm | Hm] | |];
      (split; [intros Hc; try discriminate Hc; lia
              | intros Hc; try reflexivity; lia]).
Qed.

Lemma num_ltb_not_NaN (x y : number) :
  num_ltb x y = true -> isNaN x = false /\ isNaN y = false.
Proof.
  destruct x as [[] | [] | | [] mx ex], y as [[] | [] | | [] my ey];
    intros H; try discriminate H; split; reflexivity.
Qed.

Lemma num_ltb_irrefl (x : number) : num_ltb x x = false.
Proof.
  destruct (num_ltb x x) eqn:E; [| reflexivity].
  destruct (num_ltb_not_NaN _ _ E) as [Hx _].
  destruct (orderKey_isNaN _ Hx) as [[[a1 a2] a3] Ha].
  apply (num_ltb_keyLt _ _ Ha Ha) in E. unfold keyLt in E. lia.
Qed.

Lemma num_ltb_trans (x y z : number) :
  num_ltb x y = true -> num_ltb y z = true -> num_ltb x z = true.
Proof.
  intros Hxy Hyz.
  destruct (num_ltb_not_NaN _ _ Hxy) as [Hx Hy].
  destruct (num_ltb_not_NaN _ _ Hyz) as [_ Hz].
  destruct (orderKey_isNaN _ Hx) as [[[a1 a2] a3] Ha].
  destruct (orderKey_isNaN _ Hy) as [[[b1 b2] b3] Hb].
  destruct (orderKey_isNaN _ Hz) as [[[c1 c2] c3] Hc].
  apply (num_ltb_keyLt _ _ Ha Hb) in Hxy. apply (num_ltb_keyLt _ _ Hb Hc) in Hyz.
  apply (num_ltb_keyLt _ _ Ha Hc). unfold keyLt in *. lia.
Qed.

(** A number that is not NaN lies above the smaller or below the larger of
    two numbers in order. *)
Lemma num_ltb_between (x y z : number) :
  num_ltb x y = true -> isNaN z = false ->
  num_ltb x z = true \/ num_ltb z y = true.
Proof.
  intros Hxy Hz.
  destruct (num_ltb_not_NaN _ _ Hxy) as [Hx Hy].
  destruct (orderKey_isNaN _ Hx) as [[[a1 a2] a3] Ha].
  destruct (orderKey_isNaN _ Hy) as [[[b1 b2] b3] Hb].
  destruct (orderKey_isNaN _ Hz) as [[[c1 c2] c3] Hc].
  apply (num_ltb_keyLt _ _ Ha Hb) in Hxy.
  rewrite (num_ltb_keyLt _ _ Ha Hc), (num_ltb_keyLt _ _ Hc Hb).
  unfold keyLt in *. lia.
Qed.

(** *** TemperatureDisplay: the reading behind the component *)

Record LocationInfo : Type :=
  { loc_latitude : number;
    loc_longitude : number;
    loc_timezone : string;
    loc_elevation : number }.

(** What the memoised computation returns; [None] stands for [null].  A
    timestamp that is present may still be an Invalid Date. *)
Record Reading : Type :=
  { reading_temperature : option number;
    reading_timestamp : option Date;
    reading_location : option LocationInfo;
    reading_error : option string }.

Definition failedReading (message : string) : Reading :=
  {| reading_temperature := None;
     reading_timestamp := None;
     reading_location := None;
     reading_error := Some message |}.

(** [d.getTime()]: the time value as a number, NaN for an Invalid Date. *)
Definition getTime (d : Date) : number :=
  match d with
  | Some t => ofZ t
  | None => NaN
  end.

(** [Math.abs(d.getTime() - selectedTime)], the difference rounded to
    binary64. *)
Definition timeDistance (d : Date) (selectedTime : number) : number :=
  num_abs (sub (getTime d) selectedTime).

Section TemperatureDisplay.

Variable hostDateParse : string -> Date.

(** [new Date(times[i])]; outside the array [times[i]] is [undefined] and
    the date is invalid. *)
Definition dateAt (times : list string) (i : nat) : Date :=
  match nth_error times i with
  | Some iso => newDate hostDateParse iso
  | None => None
  end.

(** The body of the search loop on [closestIndex] and [closestDiff]. *)
Definition closestStep (times : list string) (selectedTime : number)
  (st : nat * number) (i : nat) : nat * number :=
  let currentDiff := timeDistance (dateAt times i) selectedTime in
  if num_ltb currentDiff (snd st) then (i, currentDiff) else st.

Definition closestLoop (times : list string) (selectedTime : number)
  : nat * number :=
  fold_left (closestStep times selectedTime)
    (seq 1 (length times - 1))
    (0%nat, timeDistance (dateAt times 0) selectedTime).

(** The index and the date the reading is taken from. *)
Definition readingTarget (times : list string)
  (selectedDateTime : option (list Date)) : result (nat * Date) :=
  match selectedDateTime with
  | Some selected =>
      first <- match nth_error selected 0 with
               | Some d => Ok d
               | None => Throw TypeError
               end ;;
      let selectedTime := getTime first in
      let closestIndex := fst (closestLoop times selectedTime) in
      let targetTime := dateAt times closestIndex in
      _ <- toISOString first ;;
      _ <- toISOString targetTime ;;
      Ok (closestIndex, targetTime)
  | None =>
      let targetIndex := (length times - 1)%nat in
      let targetTime := dateAt times targetIndex in
      _ <- toISOString targetTime ;;
      Ok (targetIndex, targetTime)
  end.

(** The callback of [useMemo]. *)
Definition temperatureReading (weatherData : option WeatherData)
  (selectedDateTime : option (list Date)) : result Reading :=
  match weatherData with
  | None => Ok (failedReading "No data available")
  | Some w =>
      match hourly w with
      | None => Ok (failedReading "Invalid data structure")
      | Some h =>
          match hourly_time h, hourly_temperature_2m h with
          | Some times, Some temperatures =>
              if (length times =? 0)%nat || (length temperatures =? 0)%nat
              then Ok (failedReading "No temperature data")
              else if negb (length times =? length temperatures)%nat
              then Ok (failedReading "Data array mismatch")
              else
                let locationInfo :=
                  {| loc_latitude := latitude w;
                     loc_longitude := longitude w;
                     loc_timezone :=
                       if (timezone w =? "")%string then "GMT"%string
                       else timezone w;
                     loc_elevation := elevation w |} in
                target <- readingTarget times selectedDateTime ;;
                let '(targetIndex, targetTime) := target in
                match nth_error temperatures targetIndex with
                | Some (JNumber temp) =>
                    if isNaN temp
                    then Ok {| reading_temperature := None;
                               reading_timestamp := Some targetTime;
                               reading_location := Some locationInfo;
                               reading_error := Some "Invalid temperature"%string |}
                    else
                      _ <- toISOString targetTime ;;
                      Ok {| reading_temperature := Some temp;
                            reading_timestamp := Some targetTime;
                            reading_location := Some locationInfo;
                            reading_error := None |}
                | _ =>
                    Ok {| reading_temperature := None;
                          reading_timestamp := Some targetTime;
                          reading_location := Some locationInfo;
                          reading_error := Some "Invalid temperature"%string |}
                end
          | _, _ => Ok (failedReading "Invalid data structure")
          end
      end
  end.

(** Every time string parses, to the time values [ts]. *)
Definition parsesTo (times : list string) (ts : list Z) : Prop :=
  map (newDate hostDateParse) times = map Some ts.

Lemma parsesTo_length (times : list string) (ts : list Z) :
  parsesTo times ts -> length ts = length times.
Proof.
  intros H. apply (f_equal (@length Date)) in H.
  rewrite !length_map in H. auto.
Qed.

Lemma parsesTo_dateAt (times : list string) (ts : list Z) (i : nat) :
  parsesTo times ts ->
  dateAt times i = match nth_error ts i with Some t => Some t | None => None end.
Proof.
  intros H. unfold dateAt.
  pose proof (f_equal (fun l => nth_error l i) H) as E. cbv beta in E.
  rewrite !nth_error_map in E.
  destruct (nth_error times i); destruct (nth_error ts i); simpl in E;
    congruence.
Qed.

(** The state of the search after the indices below [k]: the index kept
    has the distance kept, no index seen has a smaller distance, and every
    index before the one kept has a larger distance or none (NaN). *)
Definition searchedTo (times : list string) (selectedTime : number) (k : nat)
  (st : nat * number) : Prop :=
  (fst st < k)%nat /\
  snd st = timeDistance (dateAt times (fst st)) selectedTime /\
  (forall j, (j < k)%nat ->
             num_ltb (timeDistance (dateAt times j) selectedTime) (snd st)
             = false) /\
  (forall j, (j < fst st)%nat ->
             num_ltb (snd st) (timeDistance (dateAt times j) selectedTime)
             = true \/
             isNaN (timeDistance (dateAt times j) selectedTime) = true).

Lemma closestStep_searchedTo (times : list string) (selectedTime : number)
  (k : nat) (st : nat * number) :
  searchedTo times selectedTime k st ->
  searchedTo times selectedTime (S k) (closestStep times selectedTime st k).
Proof.
  intros [Hi [Hd [Hmin Hfirst]]]. unfold closestStep, searchedTo.
  set (dk := timeDistance (dateAt times k) selectedTime).
  destruct (num_ltb dk (snd st)) eqn:Hlt.
  - cbn [fst snd]. split; [lia |]. split; [reflexivity |]. split.
    + intros j Hj. destruct (Nat.eq_dec j k) as [-> | Hne];
        [apply num_ltb_irrefl |].
      destruct (num_ltb (timeDistance (dateAt times j) selectedTime) dk)
        eqn:Hjk; [| reflexivity].
      rewrite <- (Hmin j ltac:(lia)).
      symmetry. apply (num_ltb_trans _ _ _ Hjk Hlt).
    + intros j Hj.
      destruct (isNaN (timeDistance (dateAt times j) selectedTime)) eqn:Hn;
        [right; reflexivity | left].
      destruct (num_ltb_between _ _ _ Hlt Hn) as [H | H]; [exact H |].
      rewrite (Hmin j ltac:(lia)) in H. discriminate H.
  - split; [lia |]. split; [exact Hd |]. split; [| exact Hfirst].
    intros j Hj. destruct (Nat.eq_dec j k) as [-> | Hne]; [exact Hlt |].
    apply Hmin. lia.
Qed.

Lemma closestLoop_searchedTo (times : list string) (selectedTime : number)
  (m : nat) :
  searchedTo times selectedTime (S m)
    (fold_left (closestStep times selectedTime) (seq 1 m)
       (0%nat, timeDistance (dateAt times 0) selectedTime)).
Proof.
  induction m as [| m IH].
  - cbn [seq fold_left]. unfold searchedTo. cbn [fst snd].
    split; [lia |]. split; [reflexivity |]. split.
    + intros j Hj. replace j with 0%nat by lia. apply num_ltb_irrefl.
    + intros j Hj. lia.
  - rewrite seq_S, fold_left_app. cbn [fold_left Nat.add].
    apply closestStep_searchedTo. exact IH.
Qed.

(** The time values and the selected instant are integers of binary64 and
    so is every difference the search takes: none is rounded. *)
Definition exactDistances (s : Z) (ts : list Z) : Prop :=
  Z.abs s < 2 ^ 53 /\
  Forall (fun t => Z.abs t < 2 ^ 53 /\ Z.abs (t - s) < 2 ^ 53) ts.

Lemma timeDistance_exact (times : list string) (ts : list Z) (s : Z)
  (j : nat) (tj : Z) :
  parsesTo times ts -> exactDistances s ts -> nth_error ts j = Some tj ->
  timeDistance (dateAt times j) (ofZ s) = ofZ (Z.abs (tj - s)) /\
  0 <= Z.abs (tj - s) < 2 ^ 53.
Proof.
  intros Hp [Hs Hts] Hj.
  rewrite (parsesTo_dateAt j Hp), Hj.
  rewrite Forall_forall in Hts.
  destruct (Hts tj (nth_error_In _ _ Hj)) as [Ht Hd].
  unfold timeDistance, getTime.
  rewrite (@sub_ofZ tj s Ht Hs Hd), (@abs_ofZ (tj - s) Hd). split; [reflexivity | lia].
Qed.

End TemperatureDisplay.

Definition hourlyTimes : list string :=
  ["2025-07-09T00:00:00.000Z"; "2025-07-09T01:00:00.000Z";
   "2025-07-09T02:00:00.000Z"]%string.

Definition hourlyTimeValues : list Z :=
  [1752019200000; 1752022800000; 1752026400000].

(** Three and a third minutes past 2025-07-09T01:00Z. *)
Definition selectedInstant : Z := 1752023000000.

(** X18.  The search of the component ends, for any array of time strings
    that is not empty and any selected time, on an index of the array with
    the distance computed for it; no index has a smaller computed distance,
    and every earlier index has a larger one or none (NaN).  The distance is
    the binary64 number [Math.abs(t - selected)].  When every time string
    parses and no difference is rounded (time values and differences below
    2^53 ms in magnitude), this is the first index whose time is closest to
    the selected instant: no time of the array is closer, and every earlier
    one is strictly farther. *)
Theorem closestLoop_first_minimum (host : string -> Date)
  (times : list string) (selectedTime : number) :
  times <> [] ->
  let distance := fun j => timeDistance (dateAt host times j) selectedTime in
  let found := closestLoop host times selectedTime in
  (fst found < length times)%nat /\
  snd found = distance (fst found) /\
  (forall j, (j < length times)%nat ->
             num_ltb (distance j) (snd found) = false) /\
  (forall j, (j < fst found)%nat ->
             num_ltb (snd found) (distance j) = true \/
             isNaN (distance j) = true) /\
  (forall ts s,
      parsesTo host times ts -> selectedTime = ofZ s ->
      exactDistances s ts ->
      exists ti,
        nth_error ts (fst found) = Some ti /\
        snd found = ofZ (Z.abs (ti - s)) /\
        forall j tj,
          nth_error ts j = Some tj ->
          Z.abs (ti - s) <= Z.abs (tj - s) /\
          ((j < fst found)%nat -> Z.abs (ti - s) < Z.abs (tj - s))).
Proof.
  intros Hne distance found.
  assert (Hpos : (0 < length times)%nat)
    by (destruct times; [elim Hne; reflexivity | simpl; lia]).
  destruct (closestLoop_searchedTo host times selectedTime (length times - 1))
    as [Hi [Hd [Hmin Hfirst]]].
  fold (closestLoop host times selectedTime) in Hi, Hd, Hmin, Hfirst.
  fold found in Hi, Hd, Hmin, Hfirst.
  split; [lia |]. split; [exact Hd |]. split; [| split; [exact Hfirst |]].
  - intros j Hj. apply Hmin. lia.
  - intros ts s Hp -> Hx.
    pose proof (parsesTo_length Hp) as Hlen.
    destruct (nth_error ts (fst found)) as [ti |] eqn:Eti;
      [| apply nth_error_None in Eti; lia].
    destruct (timeDistance_exact (fst found) Hp Hx Eti) as [Di Ri].
    exists ti. split; [reflexivity |]. split; [congruence |].
    intros j tj Ej.
    destruct (timeDistance_exact j Hp Hx Ej) as [Dj Rj].
    assert (Hj : (j < length times)%nat)
      by (rewrite <- Hlen; apply nth_error_Some; congruence).
    split.
    + specialize (Hmin j ltac:(lia)).
      rewrite Hd, Di, Dj, (ltb_ofZ Rj Ri) in Hmin.
      apply Z.ltb_ge in Hmin. exact Hmin.
    + intros Hlt. destruct (Hfirst j Hlt) as [H | H].
      * rewrite Hd, Di, Dj, (ltb_ofZ Ri Rj) in H.
        apply Z.ltb_lt in H. exact H.
      * rewrite Dj, isNaN_ofZ in H by lia. discriminate H.
Qed.

Lemma hourlyTimes_parse : parsesTo standardFormatOnly hourlyTimes hourlyTimeValues.
Proof.
  reflexivity.
Qed.

Lemma hourlyTimes_exact : exactDistances selectedInstant hourlyTimeValues.
Proof.
  split; [reflexivity |]. repeat constructor.
Qed.

Lemma closestLoop_first_minimum_witness :
  hourlyTimes <> [] /\
  fst (closestLoop standardFormatOnly hourlyTimes (ofZ selectedInstant))
  = 1%nat /\
  (forall j tj,
      nth_error hourlyTimeValues j = Some tj ->
      Z.abs (1752022800000 - selectedInstant) <= Z.abs (tj - selectedInstant)).
Proof.
  assert (Hne : hourlyTimes <> []) by discriminate.
  split; [exact Hne |].
  destruct (@closestLoop_first_minimum standardFormatOnly hourlyTimes
              (ofZ selectedInstant) Hne) as [_ [_ [_ [_ Hexact]]]].
  destruct (Hexact hourlyTimeValues selectedInstant hourlyTimes_parse
              eq_refl hourlyTimes_exact) as [ti [Hti [_ Hmin]]].
  assert (Hfound : fst (closestLoop standardFormatOnly hourlyTimes
                          (ofZ selectedInstant)) = 1%nat)
    by (vm_compute; reflexivity).
  split; [exact Hfound |].
  rewrite Hfound in Hti. injection Hti as <-.
  intros j tj Hj. apply (Hmin j tj Hj).
Defined.

(** The payloads the component reads from: two arrays of one length, not
    empty. *)
Definition readablePayload (w : WeatherData) (times : list string)
  (temps : list jsval) : Prop :=
  exists h,
    hourly w = Some h /\ hourly_time h = Some times /\
    hourly_temperature_2m h = Some temps /\
    times <> [] /\ length times = length temps.

Lemma temperatureReading_readable (host : string -> Date) (w : WeatherData)
  (times : list string) (temps : list jsval)
  (selectedDateTime : option (list Date)) :
  readablePayload w times temps ->
  temperatureReading host (Some w) selectedDateTime =
  (target <- readingTarget host times selectedDateTime ;;
   let locationInfo :=
     {| loc_latitude := latitude w;
        loc_longitude := longitude w;
        loc_timezone :=
          if (timezone w =? "")%string then "GMT"%string else timezone w;
        loc_elevation := elevation w |} in
   match nth_error temps (fst target) with
   | Some (JNumber temp) =>
       if isNaN temp
       then Ok {| reading_temperature := None;
                  reading_timestamp := Some (snd target);
                  reading_location := Some locationInfo;
                  reading_error := Some "Invalid temperature"%string |}
       else
         _ <- toISOString (snd target) ;;
         Ok {| reading_temperature := Some temp;
               reading_timestamp := Some (snd target);
               reading_location := Some locationInfo;
               reading_error := None |}
   | _ =>
       Ok {| reading_temperature := None;
             reading_timestamp := Some (snd target);
             reading_location := Some locationInfo;
             reading_error := Some "Invalid temperature"%string |}
   end).
Proof.
  intros [h [Hh [Ht [Hv [Hne Hlen]]]]].
  unfold temperatureReading. rewrite Hh, Ht, Hv.
  assert (L1 : (length times =? 0)%nat = false)
    by (destruct times; [elim Hne; reflexivity | reflexivity]).
  assert (L2 : (length temps =? 0)%nat = false)
    by (rewrite <- Hlen; exact L1).
  rewrite L1, L2, Hlen, Nat.eqb_refl. cbn [orb negb].
  destruct (readingTarget host times selectedDateTime) as [[i d] | e];
    reflexivity.
Qed.

(** X19.  On a payload with two non-empty arrays of one length whose time
    strings all parse, the reading never throws for a valid selected
    instant nor without a selection; it is taken at the index the search
    ends on for the selected instant, or at the last index without a
    selection; its timestamp is the time at that index, and it carries the
    temperature found there whenever that is a number other than NaN. *)
Theorem temperatureReading_at_target (host : string -> Date) (w : WeatherData)
  (times : list string) (temps : list jsval) (ts : list Z)
  (selection : option Z) (rest : list Date) :
  readablePayload w times temps -> parsesTo host times ts ->
  let selectedDateTime :=
    match selection with
    | Some s => Some (Some s :: rest)
    | None => None
    end in
  let index :=
    match selection with
    | Some s => fst (closestLoop host times (ofZ s))
    | None => (length times - 1)%nat
    end in
  exists reading t,
    (index < length times)%nat /\
    temperatureReading host (Some w) selectedDateTime = Ok reading /\
    nth_error ts index = Some t /\
    reading_timestamp reading = Some (Some t) /\
    (forall temp,
        nth_error temps index = Some (JNumber temp) -> isNaN temp = false ->
        reading_temperature reading = Some temp /\
        reading_error reading = None).
Proof.
  intros Hw Hp selectedDateTime index.
  pose proof Hw as [h [_ [_ [_ [Hne _]]]]].
  pose proof (parsesTo_length Hp) as Hlen.
  assert (Hpos : (0 < length times)%nat)
    by (destruct times; [elim Hne; reflexivity | simpl; lia]).
  assert (Hbound : (index < length times)%nat).
  { subst index. destruct selection as [s |]; [| lia].
    destruct (closestLoop_searchedTo host times (ofZ s) (length times - 1))
      as [Hi _].
    fold (closestLoop host times (ofZ s)) in Hi. lia. }
  destruct (nth_error ts index) as [t |] eqn:Ht;
    [| apply nth_error_None in Ht; lia].
  assert (Htarget : readingTarget host times selectedDateTime
                    = Ok (index, Some t)).
  { subst selectedDateTime index. unfold readingTarget.
    destruct selection as [s |]; cbn [nth_error bind toISOString getTime];
      rewrite (parsesTo_dateAt _ Hp), Ht; reflexivity. }
  rewrite (temperatureReading_readable host selectedDateTime Hw), Htarget.
  cbn [bind fst snd].
  destruct (nth_error temps index) as [[| | b | x | str] |] eqn:Ev;
    try (eexists; exists t; split; [exact Hbound |];
         split; [reflexivity |]; split; [reflexivity |];
         split; [reflexivity |]; intros temp Htemp; discriminate Htemp).
  destruct (isNaN x) eqn:En.
  - eexists; exists t. split; [exact Hbound |]. split; [reflexivity |].
    split; [reflexivity |]. split; [reflexivity |].
    intros temp Htemp Hn. injection Htemp as <-. congruence.
  - eexists; exists t. split; [exact Hbound |]. split; [reflexivity |].
    split; [reflexivity |]. split; [reflexivity |].
    intros temp Htemp _. injection Htemp as <-. split; reflexivity.
Qed.

Definition threeTemps : list jsval :=
  [JNumber (ofZ 5); JNumber (ofZ 6); JNumber (ofZ 7)].

Lemma hourlyPayload_readable :
  readablePayload (samplePayload hourlyTimes threeTemps) hourlyTimes threeTemps.
Proof.
  eexists. repeat split; try reflexivity. discriminate.
Qed.

Lemma temperatureReading_at_target_witness :
  exists reading t,
    (fst (closestLoop standardFormatOnly hourlyTimes (ofZ selectedInstant))
     < length hourlyTimes)%nat /\
    temperatureReading standardFormatOnly
      (Some (samplePayload hourlyTimes threeTemps))
      (Some [Some selectedInstant; Some selectedInstant]) = Ok reading /\
    nth_error hourlyTimeValues
      (fst (closestLoop standardFormatOnly hourlyTimes (ofZ selectedInstant)))
    = Some t /\
    reading_timestamp reading = Some (Some t) /\
    (forall temp,
        nth_error threeTemps
          (fst (closestLoop standardFormatOnly hourlyTimes
                  (ofZ selectedInstant)))
        = Some (JNumber temp) ->
        isNaN temp = false ->
        reading_temperature reading = Some temp /\
        reading_error reading = None).
Proof.
  exact (@temperatureReading_at_target standardFormatOnly
           (samplePayload hourlyTimes threeTemps) hourlyTimes threeTemps
           hourlyTimeValues (Some selectedInstant) [Some selectedInstant]
           hourlyPayload_readable hourlyTimes_parse).
Defined.

(** With an unparsable first time string the distance starts as NaN and no
    later index is ever taken. *)
Lemma closestLoop_stuck (host : string -> Date) (times : list string)
  (selectedTime : number) :
  dateAt host times 0 = None ->
  closestLoop host times selectedTime = (0%nat, NaN).
Proof.
  intros H0. unfold closestLoop. rewrite H0.
  change (timeDistance None selectedTime) with NaN.
  generalize (seq 1 (length times - 1)) as indices.
  induction indices as [| i indices IH]; [reflexivity |].
  cbn [fold_left]. unfold closestStep at 2. cbn [snd].
  replace (num_ltb (timeDistance (dateAt host times i) selectedTime) NaN)
    with false; [exact IH |].
  destruct (timeDistance (dateAt host times i) selectedTime) as [[] | [] | | [] m e];
    reflexivity.
Qed.

(** X20.  The reading throws a RangeError, out of the memoised computation,
    on a payload that is otherwise in order: when the first selected date is
    an Invalid Date; when nothing is selected and the last time string does
    not parse; and, for any selection, when the first time string does not
    parse, because the search then never leaves index 0. *)
Theorem temperatureReading_throws (host : string -> Date) (w : WeatherData)
  (times : list string) (temps : list jsval) :
  readablePayload w times temps ->
  (forall rest,
      temperatureReading host (Some w) (Some (None :: rest))
      = Throw RangeError) /\
  (dateAt host times (length times - 1) = None ->
   temperatureReading host (Some w) None = Throw RangeError) /\
  (dateAt host times 0 = None ->
   forall first rest,
     temperatureReading host (Some w) (Some (first :: rest))
     = Throw RangeError).
Proof.
  intros Hw. split; [| split].
  - intros rest. rewrite (temperatureReading_readable host _ Hw). reflexivity.
  - intros Hlast. rewrite (temperatureReading_readable host _ Hw).
    unfold readingTarget. rewrite Hlast. reflexivity.
  - intros H0 first rest. rewrite (temperatureReading_readable host _ Hw).
    unfold readingTarget. cbn [nth_error bind].
    rewrite (closestLoop_stuck host times (getTime first) H0). cbn [fst].
    rewrite H0.
    destruct first; reflexivity.
Qed.

Definition brokenTimes : list string :=
  ["yesterday"; "2025-07-09T01:00:00.000Z"; "tomorrow"]%string.

Lemma brokenPayload_readable :
  readablePayload (samplePayload brokenTimes threeTemps) brokenTimes threeTemps.
Proof.
  eexists. repeat split; try reflexivity. discriminate.
Qed.

Lemma temperatureReading_throws_witness :
  (forall rest,
      temperatureReading standardFormatOnly
        (Some (samplePayload brokenTimes threeTemps)) (Some (None :: rest))
      = Throw RangeError) /\
  temperatureReading standardFormatOnly
    (Some (samplePayload brokenTimes threeTemps)) None = Throw RangeError /\
  (forall first rest,
      temperatureReading standardFormatOnly
        (Some (samplePayload brokenTimes threeTemps)) (Some (first :: rest))
      = Throw RangeError).
Proof.
  destruct (@temperatureReading_throws standardFormatOnly
              (samplePayload brokenTimes threeTemps) brokenTimes threeTemps
              brokenPayload_readable) as [A [B C]].
  split; [exact A |]. split; [apply B; reflexivity | apply C; reflexivity].
Defined.

(** *** The polygon list and its updaters *)

(** [PolygonRegion]; an optional property that is absent is [None]. *)
Record PolygonRegion : Type :=
  { region_id : string;
    region_name : string;
    coordinates : list LatLngLiteral;
    color : string;
    dataSource : option string;
    avgTemperature : option number }.

(** The updater of [handleDeletePolygon] and of the sidebar's
    [handleDelete]: [prev.filter((p) => p.id !== id)]. *)
Definition handleDeletePolygon (id : string) (prev : list PolygonRegion)
  : list PolygonRegion :=
  filter (fun p => negb (region_id p =? id)%string) prev.

Definition withCoordinates (p : PolygonRegion) (coords : list LatLngLiteral)
  : PolygonRegion :=
  {| region_id := region_id p;
     region_name := region_name p;
     coordinates := coords;
     color := color p;
     dataSource := dataSource p;
     avgTemperature := avgTemperature p |}.

(** The updater of [handlePolygonUpdated]. *)
Definition handlePolygonUpdated (id : string) (coords : list LatLngLiteral)
  (prev : list PolygonRegion) : list PolygonRegion :=
  map (fun polygon =>
         if (region_id polygon =? id)%string
         then withCoordinates polygon coords else polygon)
    prev.

(** X21.  Deleting by id removes every polygon with that id and nothing
    else: the others stay, unchanged and in order; deleting twice is
    deleting once, and deletions of two ids commute. *)
Theorem handleDeletePolygon_spec (id : string) (prev : list PolygonRegion) :
  (forall p, In p (handleDeletePolygon id prev) <->
             In p prev /\ region_id p <> id) /\
  Subsequence (handleDeletePolygon id prev) prev /\
  handleDeletePolygon id (handleDeletePolygon id prev)
  = handleDeletePolygon id prev /\
  (forall id2,
      handleDeletePolygon id (handleDeletePolygon id2 prev)
      = handleDeletePolygon id2 (handleDeletePolygon id prev)).
Proof.
  unfold handleDeletePolygon. split; [| split; [| split]].
  - intros p. rewrite filter_In. split; intros [Hin H]; split; try exact Hin.
    + intros E. rewrite E, String.eqb_refl in H. discriminate H.
    + apply negb_true_iff, String.eqb_neq. exact H.
  - apply Subsequence_filter.
  - apply filter_twice.
  - intros id2. rewrite !filter_both. apply filter_ext.
    intros p. apply andb_comm.
Qed.

(** X22.  Updating the coordinates of an id keeps the list as long as it
    was and every polygon in its place with its id, name, colour, data
    source and temperature; the polygons with that id get the new
    coordinates and the others keep theirs; and deleting the id afterwards
    gives what deleting it at once gives. *)
Theorem handlePolygonUpdated_spec (id : string) (coords : list LatLngLiteral)
  (prev : list PolygonRegion) :
  length (handlePolygonUpdated id coords prev) = length prev /\
  (forall i p,
      nth_error prev i = Some p ->
      exists q,
        nth_error (handlePolygonUpdated id coords prev) i = Some q /\
        region_id q = region_id p /\ region_name q = region_name p /\
        color q = color p /\ dataSource q = dataSource p /\
        avgTemperature q = avgTemperature p /\
        coordinates q = (if (region_id p =? id)%string
                         then coords else coordinates p)) /\
  handleDeletePolygon id (handlePolygonUpdated id coords prev)
  = handleDeletePolygon id prev.
Proof.
  unfold handlePolygonUpdated. split; [apply length_map |]. split.
  - intros i p Hp. rewrite nth_error_map, Hp. cbn [option_map].
    eexists. split; [reflexivity |].
    destruct (region_id p =? id)%string; repeat split; reflexivity.
  - unfold handleDeletePolygon.
    induction prev as [| p prev IH]; [reflexivity |].
    cbn [map filter].
    destruct (region_id p =? id)%string eqn:E.
    + cbn [withCoordinates region_id]. rewrite E. cbn [negb]. exact IH.
    + rewrite E. cbn [negb]. f_equal. exact IH.
Qed.

(** *** The sidebar: the average temperature of a polygon *)

(** [temps.reduce((a, b) => a + b, 0) / temps.length] on the decoded array,
    in which a missing value is [null] and adds as 0. *)
Definition averageOfTemps (temps : list (option number)) : number :=
  div (fold_left
         (fun a b => add a (match b with Some x => x | None => ofZ 0 end))
         temps (ofZ 0))
      (lengthNumber temps).

Definition withTemperature (poly : PolygonRegion) (avg : number)
  : PolygonRegion :=
  {| region_id := region_id poly;
     region_name := region_name poly;
     coordinates := coordinates poly;
     color := sidebarColorForTemperature avg;
     dataSource := dataSource poly;
     avgTemperature := Some avg |}.

Section Sidebar.

(** The request for a centroid with everything behind it: [fetch], the
    status check, [res.json()] and [data.hourly?.temperature_2m ?? []].
    [Throw] is any failure among these, all of which end in the [catch]. *)
Variable fetchTemperatures : LatLngLiteral -> result (list (option number)).

(** The callback of [polygons.map] inside the effect. *)
Definition polygonWithTemperature (poly : PolygonRegion)
  : result PolygonRegion :=
  match avgTemperature poly with
  | Some _ => Ok poly
  | None =>
      centroid <- calculateCentroid (coordinates poly) ;;
      try_catch
        (temps <- fetchTemperatures centroid ;;
         if (length temps =? 0)%nat then Ok poly
         else Ok (withTemperature poly (averageOfTemps temps)))
        (fun _ => Ok poly)
  end.

(** [Promise.all(polygons.map(...))]. *)
Definition polygonsWithTemperature (polygons : list PolygonRegion)
  : result (list PolygonRegion) :=
  mapM polygonWithTemperature polygons.

End Sidebar.

(** X23.  A polygon that already has an average temperature comes back as
    it is, without centroid or request, even with no coordinates.  One
    without a temperature and without coordinates makes the callback throw
    the centroid's error, which no [catch] of the effect covers, whatever
    the request would answer.  In every other case the callback returns: a
    failed request or an empty answer gives the polygon back unchanged. *)
Theorem polygonWithTemperature_failures
  (fetch : LatLngLiteral -> result (list (option number)))
  (poly : PolygonRegion) :
  (avgTemperature poly <> None ->
   polygonWithTemperature fetch poly = Ok poly) /\
  (avgTemperature poly = None -> coordinates poly = [] ->
   polygonWithTemperature fetch poly = Throw (Error emptyCentroidMessage)) /\
  (avgTemperature poly = None -> coordinates poly <> [] ->
   (exists q, polygonWithTemperature fetch poly = Ok q) /\
   forall c,
     calculateCentroid (coordinates poly) = Ok c ->
     ((exists e, fetch c = Throw e) \/ fetch c = Ok []) ->
     polygonWithTemperature fetch poly = Ok poly).
Proof.
  unfold polygonWithTemperature. split; [| split].
  - destruct (avgTemperature poly); [reflexivity | intros H; elim H; reflexivity].
  - intros -> ->. reflexivity.
  - intros -> Hne.
    destruct (calculateCentroid_nonempty Hne) as [c Hc]. rewrite Hc.
    cbn [bind]. split.
    + destruct (fetch c) as [temps | e]; cbn [bind try_catch]; [| eauto].
      destruct (length temps =? 0)%nat; cbn [try_catch]; eauto.
    + intros c' Hc' Hfail. injection Hc' as <-.
      destruct Hfail as [[e ->] | ->]; reflexivity.
Qed.

(** X24.  Whatever the request answers, the polygon the callback returns
    has the id, name, coordinates and data source it came with; if it is
    not the polygon that came in, that one had no average temperature, the
    result carries one together with the sidebar colour of exactly that
    temperature, and every later run of the callback gives the result back
    as it is, whatever the request then answers. *)
Theorem polygonWithTemperature_result
  (fetch : LatLngLiteral -> result (list (option number)))
  (poly q : PolygonRegion) :
  polygonWithTemperature fetch poly = Ok q ->
  region_id q = region_id poly /\ region_name q = region_name poly /\
  coordinates q = coordinates poly /\ dataSource q = dataSource poly /\
  (q <> poly ->
   avgTemperature poly = None /\
   (exists avg, avgTemperature q = Some avg /\
                color q = sidebarColorForTemperature avg) /\
   forall fetch', polygonWithTemperature fetch' q = Ok q).
Proof.
  intros H.
  assert (Hcases : q = poly \/
                   exists avg, avgTemperature poly = None /\
                               q = withTemperature poly avg).
  { unfold polygonWithTemperature in H.
    destruct (avgTemperature poly) as [a |] eqn:Ea;
      [injection H as <-; auto |].
    destruct (calculateCentroid (coordinates poly)) as [c | e];
      [| discriminate H].
    cbn [bind] in H.
    destruct (fetch c) as [temps | e]; cbn [bind try_catch] in H;
      [| injection H as <-; auto].
    destruct (length temps =? 0)%nat; cbn [try_catch] in H;
      injection H as <-; [auto |].
    right. eexists. split; reflexivity. }
  destruct Hcases as [-> | [avg [Ea ->]]].
  - split; [reflexivity |]. split; [reflexivity |]. split; [reflexivity |].
    split; [reflexivity |]. intros Hne. elim Hne. reflexivity.
  - split; [reflexivity |]. split; [reflexivity |]. split; [reflexivity |].
    split; [reflexivity |].
    intros _. split; [exact Ea |]. split; [| reflexivity].
    exists avg. split; reflexivity.
Qed.

Definition coloredPolygon : PolygonRegion :=
  {| region_id := "polygon_1";
     region_name := "Polygon 1";
     coordinates := square4;
     color := "#2563eb";
     dataSource := Some "weather_api"%string;
     avgTemperature := None |}.

Definition answerTwenty : LatLngLiteral -> result (list (option number)) :=
  fun _ => Ok [Some (ofZ 10); None; Some (ofZ 50)].

Lemma polygonWithTemperature_result_witness :
  region_id (withTemperature coloredPolygon (ofZ 20)) = region_id coloredPolygon /\
  region_name (withTemperature coloredPolygon (ofZ 20))
  = region_name coloredPolygon /\
  coordinates (withTemperature coloredPolygon (ofZ 20))
  = coordinates coloredPolygon /\
  dataSource (withTemperature coloredPolygon (ofZ 20))
  = dataSource coloredPolygon /\
  (withTemperature coloredPolygon (ofZ 20) <> coloredPolygon ->
   avgTemperature coloredPolygon = None /\
   (exists avg,
       avgTemperature (withTemperature coloredPolygon (ofZ 20)) = Some avg /\
       color (withTemperature coloredPolygon (ofZ 20))
       = sidebarColorForTemperature avg) /\
   forall fetch',
     polygonWithTemperature fetch' (withTemperature coloredPolygon (ofZ 20))
     = Ok (withTemperature coloredPolygon (ofZ 20))).
Proof.
  apply (@polygonWithTemperature_result answerTwenty coloredPolygon
           (withTemperature coloredPolygon (ofZ 20))).
  vm_compute. reflexivity.
Defined.

